(** * Screen text highlighter: the scan-match-publish pipeline

    A shallow embedding of [screen_text_highlighterV4.py]: the keyword
    model ([AdvancedSearchModel]), the region selection gesture
    ([RegionSelectionWindow.mouseReleaseEvent]), the scanning cycle
    ([ocr_worker]) and the renderer's reading of the published boxes
    ([OverlayWindow.paintEvent]).

    Conventions.
    - A Python [str] is a [string]; the alphabet is ASCII (a character
      with code 128 or more has no case and is neither a word character
      nor white space).
    - A Python [int] is a [Z]; a Python [float] is a binary64 [float].
    - A raised exception is an explicit result ([None], or a constructor
      of a result type); a mutated object is passed and returned. *)

From Stdlib Require Import String Ascii List ZArith Lia Bool.
From Stdlib Require Import Floats.
Import ListNotations.

Set Implicit Arguments.

Local Open Scope string_scope.

(* ===================================================================== *)
(** ** Python string operations used by the program *)
(* ===================================================================== *)

Module PyStr.

Definition code (c : ascii) : nat := nat_of_ascii c.

Definition between (lo hi : nat) (c : ascii) : bool :=
  (lo <=? code c)%nat && (code c <=? hi)%nat.

Definition is_upper (c : ascii) : bool := between 65 90 c.
Definition is_lower (c : ascii) : bool := between 97 122 c.
Definition is_digit (c : ascii) : bool := between 48 57 c.

(** [str.isspace] on ASCII: TAB, LF, VT, FF, CR, the separators
    FS, GS, RS, US, and SPACE. *)
Definition is_space (c : ascii) : bool :=
  between 9 13 c || between 28 32 c.

(** [\w] on ASCII: letters, digits and the underscore. *)
Definition is_word (c : ascii) : bool :=
  is_upper c || is_lower c || is_digit c || (code c =? 95)%nat.

Definition lower_char (c : ascii) : ascii :=
  if is_upper c then ascii_of_nat (code c + 32) else c.

(** [s.lower()] *)
Fixpoint lower (s : string) : string :=
  match s with
  | EmptyString => EmptyString
  | String c r => String (lower_char c) (lower r)
  end.

(** [s.lstrip()] *)
Fixpoint lstrip (s : string) : string :=
  match s with
  | EmptyString => EmptyString
  | String c r => if is_space c then lstrip r else s
  end.

(** [s.rstrip()] *)
Fixpoint rstrip (s : string) : string :=
  match s with
  | EmptyString => EmptyString
  | String c r =>
      match rstrip r with
      | EmptyString => if is_space c then EmptyString else String c EmptyString
      | r' => String c r'
      end
  end.

(** [s.strip()] *)
Definition strip (s : string) : string := rstrip (lstrip s).

(** Truth value of a string: [not s] holds of the empty string only. *)
Definition is_empty (s : string) : bool :=
  match s with EmptyString => true | _ => false end.

(** [needle in hay] *)
Fixpoint contains (needle hay : string) : bool :=
  prefix needle hay ||
  match hay with
  | EmptyString => false
  | String _ r => contains needle r
  end.

(** [re.findall(r'\b\w+\b', s)]: the maximal runs of word characters,
    from left to right.  [cur] is the run being read. *)
Definition flush (cur : string) : list string :=
  if is_empty cur then [] else [cur].

Fixpoint words_from (cur : string) (s : string) : list string :=
  match s with
  | EmptyString => flush cur
  | String c r =>
      if is_word c then words_from (cur ++ String c EmptyString) r
      else flush cur ++ words_from EmptyString r
  end.

Definition findall_words (s : string) : list string :=
  words_from EmptyString s.

(** [x in l] for a list of strings. *)
Definition mem (x : string) (l : list string) : bool :=
  existsb (String.eqb x) l.

(** [l.remove(x)]: deletes the first occurrence (the caller checks
    membership before, so the [ValueError] of an absent element never
    arises). *)
Fixpoint remove_first (x : string) (l : list string) : list string :=
  match l with
  | [] => []
  | y :: r => if String.eqb x y then r else y :: remove_first x r
  end.

(** [l.index(x)] for an element known to be in [l]; [None] models the
    [ValueError]. *)
Fixpoint index (x : string) (l : list string) : option Z :=
  match l with
  | [] => None
  | y :: r =>
      if String.eqb x y then Some 0%Z
      else option_map Z.succ (index x r)
  end.

End PyStr.

(* ===================================================================== *)
(** ** The search model *)
(* ===================================================================== *)

Inductive Logic := OR | AND.

Definition Logic_eqb (a b : Logic) : bool :=
  match a, b with OR, OR | AND, AND => true | _, _ => false end.

Record AdvancedSearchModel := {
  keywords : list string;
  logic : Logic;
  case_sensitive : bool;
  partial_match : bool;
  use_regex : bool;
  whole_word : bool
}.

(** [AdvancedSearchModel.__init__] *)
Definition init_model : AdvancedSearchModel :=
  {| keywords := []; logic := OR; case_sensitive := false;
     partial_match := true; use_regex := false; whole_word := false |}.

Definition set_keywords (m : AdvancedSearchModel) (l : list string) :=
  {| keywords := l; logic := logic m; case_sensitive := case_sensitive m;
     partial_match := partial_match m; use_regex := use_regex m;
     whole_word := whole_word m |}.

Definition add_keyword (m : AdvancedSearchModel) (keyword : string) :=
  let keyword := PyStr.strip keyword in
  if negb (PyStr.is_empty keyword) && negb (PyStr.mem keyword (keywords m))
  then set_keywords m (keywords m ++ [keyword])
  else m.

Definition remove_keyword (m : AdvancedSearchModel) (keyword : string) :=
  if PyStr.mem keyword (keywords m)
  then set_keywords m (PyStr.remove_first keyword (keywords m))
  else m.

Definition clear_keywords (m : AdvancedSearchModel) :=
  set_keywords m [].

(** [x if self.case_sensitive else x.lower()] *)
Definition fold_case (m : AdvancedSearchModel) (s : string) : string :=
  if case_sensitive m then s else PyStr.lower s.

(** The body of the keyword loop, written twice in the source (in
    [match_text] and in [get_match_details]) with the same text. *)
Definition keyword_matches (m : AdvancedSearchModel) (text keyword : string)
  : bool :=
  let keyword_to_match := fold_case m keyword in
  let text_to_match := fold_case m text in
  if partial_match m then
    if whole_word m then
      let words := PyStr.findall_words text_to_match in
      existsb (fun word => String.eqb keyword_to_match (fold_case m word)) words
    else PyStr.contains keyword_to_match text_to_match
  else String.eqb keyword_to_match text_to_match.

(** The literal part of [match_text], after the guard and the regex
    block. *)
Definition literal_match (m : AdvancedSearchModel) (text : string) : bool :=
  let matches := map (keyword_matches m text) (keywords m) in
  match logic m with
  | OR => existsb (fun b => b) matches
  | AND => forallb (fun b => b) matches
  end.

(** [re.search(pattern, text, flags)] is a call into Python's standard
    library.  Its three outcomes: a match object (truthy), [None], or a
    raised [re.error] for a malformed pattern. *)
Inductive re_result := ReMatch | ReNoMatch | ReError.

Record MatchDetails := {
  matched : bool;
  details_keywords : list string;
  details_text : option string
}.

(** One iteration of the loop of [get_match_details].  The dictionary
    always holds the key ["matched"], so under AND
    [details.get("matched", True)] reads the current value back. *)
Definition details_step (m : AdvancedSearchModel) (text : string)
  (details : MatchDetails) (keyword : string) : MatchDetails :=
  if keyword_matches m text keyword then
    {| matched := match logic m with
                  | OR => true
                  | AND => matched details
                  end;
       details_keywords := details_keywords details ++ [keyword];
       details_text := details_text details |}
  else details.

Definition get_match_details (m : AdvancedSearchModel) (text : string)
  : MatchDetails :=
  match keywords m, text with
  | [], _ | _, EmptyString =>
      {| matched := false; details_keywords := []; details_text := None |}
  | _, _ =>
      let details :=
        fold_left (details_step m text) (keywords m)
          {| matched := false; details_keywords := [];
             details_text := Some text |} in
      if Logic_eqb (logic m) AND &&
         (length (details_keywords details) <? length (keywords m))%nat
      then {| matched := false;
              details_keywords := details_keywords details;
              details_text := details_text details |}
      else details
  end.

Section Search.

(** The regular-expression engine: pattern, text, and whether
    [re.IGNORECASE] is passed. *)
Variable re_search : string -> string -> bool -> re_result.

(** The [for] loop inside the [try] of [match_text].  [Some b] is a
    [return b]; [None] is a [re.error] that left the loop. *)
Fixpoint regex_loop (m : AdvancedSearchModel) (text : string)
  (patterns : list string) : option bool :=
  match patterns with
  | [] => Some (Logic_eqb (logic m) AND)
  | pattern :: rest =>
      match re_search pattern text (negb (case_sensitive m)) with
      | ReError => None
      | ReMatch =>
          match logic m with
          | OR => Some true
          | AND => regex_loop m text rest
          end
      | ReNoMatch =>
          match logic m with
          | AND => Some false
          | OR => regex_loop m text rest
          end
      end
  end.

Definition match_text (m : AdvancedSearchModel) (text : string) : bool :=
  match keywords m, text with
  | [], _ | _, EmptyString => false
  | _, _ =>
      match (if use_regex m then regex_loop m text (keywords m) else None)
      with
      | Some result => result
      | None => literal_match m text
      end
  end.

End Search.

(* ===================================================================== *)
(** ** A regular-expression engine for a fragment of Python's syntax *)
(* ===================================================================== *)

(** Used to evaluate [match_text] at concrete patterns.  The fragment:
    ordinary characters, [.], the quantifiers [*] [+] [?], alternation
    [|], groups [( )] and a backslash before a special character.
    Anchors, character sets, counted repetition, lazy and possessive
    quantifiers, group extensions and letter escapes are outside the
    fragment and reported as [Unsupported]. *)
Module Regex.

Inductive re :=
| Void | Eps | Any
| Chr (c : ascii)
| Cat (a b : re) | Alt (a b : re) | Star (a : re).

Inductive parsed := Pattern (r : re) | Malformed | Unsupported.

Record frame := { alts : option re; branch : list re }.

Definition empty_frame : frame := {| alts := None; branch := [] |}.

Definition push (a : re) (f : frame) : frame :=
  {| alts := alts f; branch := a :: branch f |}.

(** [branch] holds the atoms of the current alternative, last first. *)
Definition close (f : frame) : re :=
  let b := fold_left (fun acc a => Cat a acc) (branch f) Eps in
  match alts f with
  | None => b
  | Some a => Alt a b
  end.

Definition one_of (set : string) (c : ascii) : bool :=
  existsb (Ascii.eqb c) (list_ascii_of_string set).

Definition special : ascii -> bool := one_of ".^$*+?{}[]\|()".

Definition quantify (q : ascii) (a : re) : re :=
  if Ascii.eqb q "*" then Star a
  else if Ascii.eqb q "+" then Cat a (Star a)
  else Alt a Eps.

Inductive position := AtStart | AfterAtom | AfterQuantifier.

Fixpoint parse_loop (stack : list frame) (cur : frame) (pos : position)
  (s : string) : parsed :=
  match s with
  | EmptyString =>
      match stack with
      | [] => Pattern (close cur)
      | _ :: _ => Malformed
      end
  | String c r =>
      if Ascii.eqb c "(" then
        match r with
        | String "?" _ => Unsupported
        | _ => parse_loop (cur :: stack) empty_frame AtStart r
        end
      else if Ascii.eqb c ")" then
        match stack with
        | [] => Malformed
        | f :: st => parse_loop st (push (close cur) f) AfterAtom r
        end
      else if Ascii.eqb c "|" then
        parse_loop stack {| alts := Some (close cur); branch := [] |}
          AtStart r
      else if one_of "*+?" c then
        match pos, branch cur with
        | AfterAtom, a :: q =>
            parse_loop stack {| alts := alts cur;
                                branch := quantify c a :: q |}
              AfterQuantifier r
        | AfterQuantifier, _ =>
            if Ascii.eqb c "*" then Malformed else Unsupported
        | _, _ => Malformed
        end
      else if Ascii.eqb c "\" then
        match r with
        | EmptyString => Malformed
        | String d r' =>
            if special d then parse_loop stack (push (Chr d) cur) AfterAtom r'
            else Unsupported
        end
      else if Ascii.eqb c "." then
        parse_loop stack (push Any cur) AfterAtom r
      else if special c then Unsupported
      else parse_loop stack (push (Chr c) cur) AfterAtom r
  end.

Definition parse (pattern : string) : parsed :=
  parse_loop [] empty_frame AtStart pattern.

Fixpoint nullable (r : re) : bool :=
  match r with
  | Void | Any | Chr _ => false
  | Eps | Star _ => true
  | Cat a b => nullable a && nullable b
  | Alt a b => nullable a || nullable b
  end.

Section Matching.

Variable ignore_case : bool.

Definition same_char (a b : ascii) : bool :=
  if ignore_case
  then Ascii.eqb (PyStr.lower_char a) (PyStr.lower_char b)
  else Ascii.eqb a b.

(** Brzozowski derivative; [.] matches everything but a newline. *)
Fixpoint deriv (c : ascii) (r : re) : re :=
  match r with
  | Void | Eps => Void
  | Any => if Ascii.eqb c "010" then Void else Eps
  | Chr d => if same_char c d then Eps else Void
  | Cat a b =>
      if nullable a then Alt (Cat (deriv c a) b) (deriv c b)
      else Cat (deriv c a) b
  | Alt a b => Alt (deriv c a) (deriv c b)
  | Star a => Cat (deriv c a) (Star a)
  end.

(** Some prefix of [s] is matched by [r]. *)
Fixpoint match_prefix (r : re) (s : string) : bool :=
  nullable r ||
  match s with
  | EmptyString => false
  | String c t => match_prefix (deriv c r) t
  end.

(** Some substring of [s] is matched by [r]. *)
Fixpoint search_from (r : re) (s : string) : bool :=
  match_prefix r s ||
  match s with
  | EmptyString => false
  | String _ t => search_from r t
  end.

End Matching.

Definition search (pattern text : string) (ignore_case : bool)
  : option re_result :=
  match parse pattern with
  | Pattern r =>
      Some (if search_from ignore_case r text then ReMatch else ReNoMatch)
  | Malformed => Some ReError
  | Unsupported => None
  end.

(** The engine as an instance of the parameter of [match_text]; a
    pattern outside the fragment is not interpreted (it is given the
    outcome [ReError], and no statement below evaluates one). *)
Definition re_search (pattern text : string) (ignore_case : bool)
  : re_result :=
  match search pattern text ignore_case with
  | Some r => r
  | None => ReError
  end.

End Regex.

(* ===================================================================== *)
(** ** Python numbers *)
(* ===================================================================== *)

Local Open Scope Z_scope.

Module PyNum.

(** [float(z)] for an integer of at most 63 bits. *)
Definition of_int (z : Z) : float :=
  if z <? 0
  then PrimFloat.opp (PrimFloat.of_uint63 (Uint63.of_Z (- z)))
  else PrimFloat.of_uint63 (Uint63.of_Z z).

(** [a / b] on floats; [None] is the [ZeroDivisionError]. *)
Definition truediv (a b : float) : option float :=
  if PrimFloat.eqb b PrimFloat.zero then None
  else Some (PrimFloat.div a b).

(** [int(f)]: the value [m * 2 ^ e] of a finite float, truncated
    toward zero; [None] is the [OverflowError] of an infinity or the
    [ValueError] of a NaN. *)
Definition to_int (f : float) : option Z :=
  match Prim2SF f with
  | S754_zero _ => Some 0
  | S754_finite s m e =>
      let magnitude :=
        if 0 <=? e then Z.shiftl (Z.pos m) e else Z.shiftr (Z.pos m) (- e) in
      Some (if s then - magnitude else magnitude)
  | S754_infinity _ | S754_nan => None
  end.

(** [l[i]] with Python's negative indices; [None] is the
    [IndexError]. *)
Definition nth (A : Type) (l : list A) (i : Z) : option A :=
  let n := Z.of_nat (length l) in
  if i <? 0 then
    if i + n <? 0 then None else nth_error l (Z.to_nat (i + n))
  else nth_error l (Z.to_nat i).

End PyNum.

(* ===================================================================== *)
(** ** Monitors and regions *)
(* ===================================================================== *)

(** A rectangle as [mss] gives and takes it: an entry of [sct.monitors],
    or the area passed to [sct.grab]. *)
Record ScreenRect := {
  sr_left : Z; sr_top : Z; sr_width : Z; sr_height : Z
}.

(** An entry of [monitor_info]. *)
Record Monitor := {
  mon_index : Z;
  mon_left : Z; mon_top : Z;
  mon_width : Z; mon_height : Z;
  mon_right : Z; mon_bottom : Z
}.

(** A dictionary keyed by monitor index, in insertion order. *)
Definition dict (V : Type) := list (Z * V).

Fixpoint dict_get (V : Type) (d : dict V) (k : Z) : option V :=
  match d with
  | [] => None
  | (k', v) :: r => if k =? k' then Some v else dict_get r k
  end.

(** [d[k] = v]: an existing key keeps its place. *)
Fixpoint dict_set (V : Type) (d : dict V) (k : Z) (v : V) : dict V :=
  match d with
  | [] => [(k, v)]
  | (k', v') :: r =>
      if k =? k' then (k, v) :: r else (k', v') :: dict_set r k v
  end.

Fixpoint enumerate_from (i : Z) (l : list ScreenRect) : dict Monitor :=
  match l with
  | [] => []
  | monitor :: r =>
      (i, {| mon_index := i;
             mon_left := sr_left monitor; mon_top := sr_top monitor;
             mon_width := sr_width monitor; mon_height := sr_height monitor;
             mon_right := sr_left monitor + sr_width monitor;
             mon_bottom := sr_top monitor + sr_height monitor |})
      :: enumerate_from (i + 1) r
  end.

(** [get_monitor_info]; [monitors] is [sct.monitors[1:]]. *)
Definition get_monitor_info (monitors : list ScreenRect) : dict Monitor :=
  enumerate_from 1 monitors.

(** A region [(x, y, width, height)], relative to its monitor. *)
Definition Region := (Z * Z * Z * Z)%type.

(** [selected_regions]; a value that is falsy in Python ([None], an
    empty tuple) is [None]. *)
Definition Regions := dict (option Region).

(** The fields of a [RegionSelectionWindow] read by the mouse handlers;
    [win_x], [win_y] are [self.x()], [self.y()]. *)
Record RegionSelectionWindow := {
  start : Z * Z;
  end_ : Z * Z;
  is_selecting : bool;
  win_x : Z; win_y : Z
}.

Definition get_monitor_at_point (self : RegionSelectionWindow)
  (monitor_info : dict Monitor) (x y : Z) : option Z :=
  let global_x := x + win_x self in
  let global_y := y + win_y self in
  option_map fst
    (find (fun entry =>
             let monitor := snd entry in
             (mon_left monitor <=? global_x) && (global_x <=? mon_right monitor)
             && (mon_top monitor <=? global_y)
             && (global_y <=? mon_bottom monitor))
          monitor_info).

(** What [mouseReleaseEvent] does. *)
Inductive release_outcome :=
| Ignored                                   (* other button, or no drag *)
| TooSmall                                  (* warning box, return *)
| NoMonitor                                 (* warning box, return *)
| Selected (region : Region) (monitor_idx : Z). (* region_selected.emit *)

Definition mouseReleaseEvent (self : RegionSelectionWindow)
  (monitor_info : dict Monitor) (left_button : bool) : release_outcome :=
  if left_button && is_selecting self then
    let x := Z.min (fst (start self)) (fst (end_ self)) in
    let y := Z.min (snd (start self)) (snd (end_ self)) in
    let w := Z.abs (fst (start self) - fst (end_ self)) in
    let h := Z.abs (snd (start self) - snd (end_ self)) in
    if (w <? 50) || (h <? 30) then TooSmall
    else
      let global_x := x + win_x self in
      let global_y := y + win_y self in
      match get_monitor_at_point self monitor_info (x + w / 2) (y + h / 2) with
      | None | Some 0 => NoMonitor
      | Some monitor_idx =>
          match dict_get monitor_info monitor_idx with
          | None => NoMonitor (* unreachable: the index comes from the dict *)
          | Some monitor =>
              let relative_x := global_x - mon_left monitor in
              let relative_y := global_y - mon_top monitor in
              Selected (relative_x, relative_y, w, h) monitor_idx
          end
      end
  else Ignored.

(** [ControlPanel.on_region_selected], the slot of [region_selected]. *)
Definition on_region_selected (selected_regions : Regions)
  (region : Region) (monitor_index : Z) : Regions :=
  dict_set selected_regions monitor_index (Some region).

(** A mouse release followed by the delivery of its signal. *)
Definition release_then_register (self : RegionSelectionWindow)
  (monitor_info : dict Monitor) (left_button : bool)
  (selected_regions : Regions) : Regions :=
  match mouseReleaseEvent self monitor_info left_button with
  | Selected region monitor_idx =>
      on_region_selected selected_regions region monitor_idx
  | _ => selected_regions
  end.

(* ===================================================================== *)
(** ** The scanning cycle of [ocr_worker] *)
(* ===================================================================== *)

(** One row of the dictionary returned by [pytesseract.image_to_data]
    (its lists ["text"], ["left"], ["top"], ["width"], ["height"] run
    in parallel). *)
Record Fragment := {
  frag_text : string;
  frag_left : Z; frag_top : Z; frag_width : Z; frag_height : Z
}.

(** An element of [matched_boxes]:
    [(x, y, w, h, monitor_idx, keyword_idx)]. *)
Record Box := {
  box_x : Z; box_y : Z; box_w : Z; box_h : Z;
  box_monitor : Z; box_keyword : Z
}.

(** [control_panel.scale_spin.value() / 100.0] *)
Definition scale_factor_of (scale_percent : Z) : float :=
  PrimFloat.div (PyNum.of_int scale_percent) (PyNum.of_int 100).

(** [int(v / scale_factor)] *)
Definition unscale (v : Z) (scale_factor : float) : option Z :=
  match PyNum.truediv (PyNum.of_int v) scale_factor with
  | Some q => PyNum.to_int q
  | None => None
  end.

(** [keyword_indices[0] if keyword_indices else 0], where
    [keyword_indices] lists the positions of the matched keywords. *)
Definition first_keyword_index (m : AdvancedSearchModel)
  (details : MatchDetails) : Z :=
  let keyword_indices :=
    flat_map (fun keyword =>
                if PyStr.mem keyword (keywords m) then
                  match PyStr.index keyword (keywords m) with
                  | Some i => [i]
                  | None => []
                  end
                else [])
             (details_keywords details) in
  match keyword_indices with
  | i :: _ => i
  | [] => 0
  end.

(** The coordinates of the box of one fragment (the four [int(...)]
    lines); [None] is an exception raised by one of them. *)
Definition box_of_fragment (m : AdvancedSearchModel) (scale_factor : float)
  (region : Region) (monitor_idx : Z) (details : MatchDetails)
  (frag : Fragment) : option Box :=
  let '(region_x, region_y, _, _) := region in
  match unscale (frag_left frag) scale_factor,
        unscale (frag_top frag) scale_factor,
        unscale (frag_width frag) scale_factor,
        unscale (frag_height frag) scale_factor with
  | Some x, Some y, Some w, Some h =>
      Some {| box_x := x + region_x; box_y := y + region_y;
              box_w := w; box_h := h;
              box_monitor := monitor_idx;
              box_keyword := first_keyword_index m details |}
  | _, _, _, _ => None
  end.

(** [region_dict], the area handed to [sct.grab] for a region of a
    monitor. *)
Definition screenshot_area (monitor : ScreenRect) (region : Region)
  : ScreenRect :=
  let '(region_x, region_y, region_w, region_h) := region in
  {| sr_left := sr_left monitor + region_x;
     sr_top := sr_top monitor + region_y;
     sr_width := region_w;
     sr_height := region_h |}.

(** How the body of the inner [try] left a region. *)
Inductive region_exit := Completed | Raised.

Section Cycle.

Variable re_search : string -> string -> bool -> re_result.

(** The capture, the image preparation and the recognition of one
    area, up to the [data] dictionary; [None] is an exception raised
    on the way ([sct.grab], [cv2], [pytesseract]). *)
Variable capture_and_recognize : Z -> ScreenRect -> option (list Fragment).

(** The loop over [data["text"]].  [boxes] is the list being
    assembled; boxes appended before an exception stay in it. *)
Fixpoint scan_fragments (m : AdvancedSearchModel) (scale_factor : float)
  (region : Region) (monitor_idx : Z) (boxes : list Box)
  (data : list Fragment) : list Box * region_exit :=
  match data with
  | [] => (boxes, Completed)
  | frag :: rest =>
      let text := PyStr.strip (frag_text frag) in
      if PyStr.is_empty text then
        scan_fragments m scale_factor region monitor_idx boxes rest
      else if match_text re_search m text then
        let details := get_match_details m text in
        if matched details then
          match box_of_fragment m scale_factor region monitor_idx details
                  frag with
          | Some box =>
              scan_fragments m scale_factor region monitor_idx
                (boxes ++ [box]) rest
          | None => (boxes, Raised)
          end
        else scan_fragments m scale_factor region monitor_idx boxes rest
      else scan_fragments m scale_factor region monitor_idx boxes rest
  end.

(** One iteration of the loop over [selected_regions.items()].
    [None] is an exception outside the inner [try] (the [IndexError]
    of [monitors[monitor_idx - 1]]), which leaves the cycle. *)
Definition scan_region (monitors : list ScreenRect)
  (m : AdvancedSearchModel) (scale_percent : Z) (boxes : list Box)
  (entry : Z * option Region) : option (list Box) :=
  let '(monitor_idx, region) := entry in
  match region with
  | None => Some boxes
  | Some region =>
      if Z.of_nat (length monitors) <=? monitor_idx - 1 then Some boxes
      else
        match PyNum.nth monitors (monitor_idx - 1) with
        | None => None
        | Some monitor =>
            match capture_and_recognize monitor_idx
                    (screenshot_area monitor region) with
            | None => Some boxes
            | Some data =>
                let scale_factor := scale_factor_of scale_percent in
                match keywords m with
                | [] => Some boxes
                | _ :: _ =>
                    Some (fst (scan_fragments m scale_factor region
                                 monitor_idx boxes data))
                end
            end
        end
  end.

(** The loop over the regions, from the list assembled so far. *)
Fixpoint scan_regions (monitors : list ScreenRect)
  (m : AdvancedSearchModel) (scale_percent : Z) (boxes : list Box)
  (regions : Regions) : option (list Box) :=
  match regions with
  | [] => Some boxes
  | entry :: rest =>
      match scan_region monitors m scale_percent boxes entry with
      | Some boxes' => scan_regions monitors m scale_percent boxes' rest
      | None => None
      end
  end.

(** The globals the cycle reads and writes. *)
Record Shared := {
  matched_boxes : list Box;
  selected_regions : Regions
}.

(** One pass of the body of [while True] with [ocr_active] set:
    [boxes = []], the loop over the regions, then
    [matched_boxes = boxes] under the lock.  An exception that reaches
    the outer [try] skips the assignment. *)
Definition ocr_cycle (monitors : list ScreenRect) (m : AdvancedSearchModel)
  (scale_percent : Z) (g : Shared) : Shared :=
  match scan_regions monitors m scale_percent [] (selected_regions g) with
  | Some boxes =>
      {| matched_boxes := boxes; selected_regions := selected_regions g |}
  | None => g
  end.

End Cycle.

(** What one pass of [while True] reads from outside the thread: the
    flag [ocr_active], the outcome of the captures of that pass, and
    the settings of the control panel. *)
Record Tick := {
  tick_active : bool;
  tick_capture : Z -> ScreenRect -> option (list Fragment);
  tick_model : AdvancedSearchModel;
  tick_scale : Z
}.

(** [ocr_worker], for as many passes of its loop as there are ticks; a
    pass with [ocr_active] unset only sleeps. *)
Definition ocr_worker (re_search : string -> string -> bool -> re_result)
  (monitors : list ScreenRect) (ticks : list Tick) (g : Shared) : Shared :=
  fold_left
    (fun g t =>
       if tick_active t
       then ocr_cycle re_search (tick_capture t) monitors (tick_model t)
              (tick_scale t) g
       else g)
    ticks g.

(** The loop over [matched_boxes] in [OverlayWindow.paintEvent]: the
    global position of a box and the rectangle drawn for it; a box whose
    monitor is unknown is passed over. *)
Record Painted := {
  global_x : Z; global_y : Z;
  rect : Z * Z * Z * Z
}.

Definition paint_box (monitor_info : dict Monitor) (box : Box)
  : option Painted :=
  match dict_get monitor_info (box_monitor box) with
  | None => None
  | Some monitor =>
      let global_x := box_x box + mon_left monitor in
      let global_y := box_y box + mon_top monitor in
      let pad_x := 4 in
      let pad_y := 2 in
      Some {| global_x := global_x; global_y := global_y;
              rect := (global_x - pad_x, global_y - pad_y,
                       box_w box + pad_x * 2, box_h box + pad_y * 2) |}
  end.

(** [OverlayWindow.paintEvent], the part that reads [matched_boxes]. *)
Definition paintEvent (monitor_info : dict Monitor)
  (matched_boxes : list Box) : list Painted :=
  flat_map (fun box =>
              match paint_box monitor_info box with
              | Some painted => [painted]
              | None => []
              end)
           matched_boxes.

(* ===================================================================== *)
(** ** The worker thread and the renderer, interleaved *)
(* ===================================================================== *)

(** The scanning thread and the paint handler run concurrently and
    share the global [matched_boxes], a name bound to a list object.
    The store holds the list objects by address, so that the aliasing
    made by [matched_boxes = boxes] is in the model. *)
Module SharedState.

Local Open Scope list_scope.

Definition address := nat.

Inductive owner := Worker | Renderer.

(** Where the worker is in the body of its loop. *)
Inductive worker_pc :=
| Between
    (* outside a cycle: sleeping, or before [boxes = []] *)
| Assembling (boxes : address) (full todo : list Box)
    (* in the loop over the regions; [todo] are the boxes this cycle
       has still to append, [full] all the boxes of the cycle *)
| Publishing (boxes : address) (full : list Box)
    (* after [lock.acquire()], before [matched_boxes = boxes] *)
| Published.
    (* after the assignment, before [lock.release()] *)

(** Where the renderer is in [paintEvent]. *)
Inductive renderer_pc :=
| Waiting
| Painting (iterator : address) (position : nat) (seen : list Box).
    (* between [lock.acquire()] and [lock.release()], in the [for]
       loop over the list object [iterator] *)

Record World := {
  store : list (list Box);
  matched_boxes_ref : address;
  lock : option owner;
  worker : worker_pc;
  renderer : renderer_pc;
  (* history, not read by the program: the lists of the cycles that
     reached the assignment, and the lists the paint passes read *)
  published : list (list Box);
  observed : list (list Box)
}.

Definition deref (w : World) (a : address) : list Box :=
  nth a (store w) [].

Fixpoint store_append (s : list (list Box)) (a : address) (b : Box)
  : list (list Box) :=
  match s, a with
  | [], _ => []
  | l :: r, O => (l ++ [b]) :: r
  | l :: r, S a' => l :: store_append r a' b
  end.

(** [matched_boxes = []] at module level. *)
Definition initial : World :=
  {| store := [[]]; matched_boxes_ref := 0%nat; lock := None;
     worker := Between; renderer := Waiting;
     published := []; observed := [] |}.

Inductive label :=
| Begin (full : list Box) | Append (b : Box) | Abort
| WorkerAcquire | Assign | WorkerRelease
| RendererAcquire | Read (b : Box) | RendererRelease.

Inductive step : World -> label -> World -> Prop :=
| step_begin w full :
    (* [boxes = []]: a fresh list object *)
    worker w = Between ->
    step w (Begin full)
      {| store := store w ++ [[]];
         matched_boxes_ref := matched_boxes_ref w; lock := lock w;
         worker := Assembling (length (store w)) full full;
         renderer := renderer w;
         published := published w; observed := observed w |}
| step_append w boxes full b todo :
    (* [boxes.append(...)] *)
    worker w = Assembling boxes full (b :: todo) ->
    step w (Append b)
      {| store := store_append (store w) boxes b;
         matched_boxes_ref := matched_boxes_ref w; lock := lock w;
         worker := Assembling boxes full todo;
         renderer := renderer w;
         published := published w; observed := observed w |}
| step_abort w boxes full todo :
    (* an exception reaches the outer [except] *)
    worker w = Assembling boxes full todo ->
    step w Abort
      {| store := store w;
         matched_boxes_ref := matched_boxes_ref w; lock := lock w;
         worker := Between; renderer := renderer w;
         published := published w; observed := observed w |}
| step_worker_acquire w boxes full :
    (* the loop over the regions is over; [lock.acquire()] *)
    worker w = Assembling boxes full [] ->
    lock w = None ->
    step w WorkerAcquire
      {| store := store w;
         matched_boxes_ref := matched_boxes_ref w; lock := Some Worker;
         worker := Publishing boxes full; renderer := renderer w;
         published := published w; observed := observed w |}
| step_assign w boxes full :
    (* [matched_boxes = boxes] *)
    worker w = Publishing boxes full ->
    step w Assign
      {| store := store w;
         matched_boxes_ref := boxes; lock := lock w;
         worker := Published; renderer := renderer w;
         published := published w ++ [full]; observed := observed w |}
| step_worker_release w :
    worker w = Published ->
    step w WorkerRelease
      {| store := store w;
         matched_boxes_ref := matched_boxes_ref w; lock := None;
         worker := Between; renderer := renderer w;
         published := published w; observed := observed w |}
| step_renderer_acquire w :
    (* [lock.acquire()], then [enumerate(matched_boxes)] *)
    renderer w = Waiting ->
    lock w = None ->
    step w RendererAcquire
      {| store := store w;
         matched_boxes_ref := matched_boxes_ref w; lock := Some Renderer;
         worker := worker w;
         renderer := Painting (matched_boxes_ref w) 0 [];
         published := published w; observed := observed w |}
| step_read w iterator position seen b :
    (* the next element of the iteration *)
    renderer w = Painting iterator position seen ->
    nth_error (deref w iterator) position = Some b ->
    step w (Read b)
      {| store := store w;
         matched_boxes_ref := matched_boxes_ref w; lock := lock w;
         worker := worker w;
         renderer := Painting iterator (S position) (seen ++ [b]);
         published := published w; observed := observed w |}
| step_renderer_release w iterator position seen :
    (* the iteration is exhausted; [lock.release()] *)
    renderer w = Painting iterator position seen ->
    nth_error (deref w iterator) position = None ->
    step w RendererRelease
      {| store := store w;
         matched_boxes_ref := matched_boxes_ref w; lock := None;
         worker := worker w; renderer := Waiting;
         published := published w; observed := observed w ++ [seen] |}.

Inductive reachable : World -> Prop :=
| reach_initial : reachable initial
| reach_step w lab w' : reachable w -> step w lab w' -> reachable w'.

(** The list the name [matched_boxes] denotes. *)
Definition current (w : World) : list Box :=
  deref w (matched_boxes_ref w).

(** A list that some cycle assembled in full, or the initial empty
    list. *)
Definition complete (w : World) (l : list Box) : Prop :=
  l = [] \/ In l (published w).

(** The invariant of the interleaving. *)
Definition worker_ok (w : World) : Prop :=
  match worker w with
  | Between => lock w <> Some Worker
  | Assembling boxes full todo =>
      (boxes < length (store w))%nat /\
      boxes <> matched_boxes_ref w /\
      deref w boxes ++ todo = full /\
      lock w <> Some Worker
  | Publishing boxes full =>
      (boxes < length (store w))%nat /\
      deref w boxes = full /\
      lock w = Some Worker
  | Published => lock w = Some Worker
  end.

Definition renderer_ok (w : World) : Prop :=
  match renderer w with
  | Waiting => lock w <> Some Renderer
  | Painting iterator position seen =>
      lock w = Some Renderer /\
      iterator = matched_boxes_ref w /\
      seen = firstn position (deref w iterator)
  end.

Definition invariant (w : World) : Prop :=
  (matched_boxes_ref w < length (store w))%nat /\
  current w = last (published w) [] /\
  worker_ok w /\
  renderer_ok w /\
  Forall (complete w) (observed w).

End SharedState.

(* ===================================================================== *)
(** ** Sequences of keyword operations *)
(* ===================================================================== *)

Inductive keyword_op :=
| Add (keyword : string)
| Remove (keyword : string)
| Clear.

Definition apply_op (m : AdvancedSearchModel) (op : keyword_op)
  : AdvancedSearchModel :=
  match op with
  | Add keyword => add_keyword m keyword
  | Remove keyword => remove_keyword m keyword
  | Clear => clear_keywords m
  end.

Definition run_ops (m : AdvancedSearchModel) (ops : list keyword_op)
  : AdvancedSearchModel :=
  fold_left apply_op ops m.










(* ===================================================================== *)
(** ** The per-keyword match, stated declaratively *)
(* ===================================================================== *)

Fixpoint all_chars (P : ascii -> bool) (s : string) : bool :=
  match s with
  | EmptyString => true
  | String c r => P c && all_chars P r
  end.

Definition not_upper (c : ascii) : bool := negb (PyStr.is_upper c).

(** [needle] occurs in [hay]. *)
Definition occurs_in (needle hay : string) : Prop :=
  exists before after : string, hay = (before ++ needle ++ after)%string.

(** A word of a text: a maximal run of word characters.  The run is not
    empty, and what comes before it does not end, and what comes after
    it does not start, with a word character. *)
Definition starts_nonword (s : string) : Prop :=
  match s with
  | EmptyString => True
  | String c _ => PyStr.is_word c = false
  end.

Definition ends_in_nonword (s : string) : Prop :=
  exists (p : string) (c : ascii),
    s = (p ++ String c EmptyString)%string /\ PyStr.is_word c = false.

Definition ends_nonword (s : string) : Prop :=
  s = EmptyString \/ ends_in_nonword s.

Definition is_word_of (w t : string) : Prop :=
  exists before after : string,
    t = (before ++ w ++ after)%string /\
    w <> EmptyString /\
    all_chars PyStr.is_word w = true /\
    ends_nonword before /\
    starts_nonword after.

(** The two ways a word comes out of [words_from cur s]: the run being
    read, completed by the word characters at the head of [s]; or a
    word that starts later in [s]. *)
Definition run_then (cur s w : string) : Prop :=
  exists r after : string,
    s = (r ++ after)%string /\
    all_chars PyStr.is_word r = true /\
    starts_nonword after /\
    w = (cur ++ r)%string /\
    w <> EmptyString.

Definition word_later (s w : string) : Prop :=
  exists before after : string,
    s = (before ++ w ++ after)%string /\
    ends_in_nonword before /\
    w <> EmptyString /\
    all_chars PyStr.is_word w = true /\
    starts_nonword after.

(** What it means for one keyword to match a text in literal mode:
    without [partial_match], equality; with it, an occurrence, or, under
    [whole_word], being a word of the text; all after case folding. *)
Definition keyword_hit (m : AdvancedSearchModel) (text keyword : string)
  : Prop :=
  let k := fold_case m keyword in
  let t := fold_case m text in
  if partial_match m then
    if whole_word m then is_word_of k t else occurs_in k t
  else k = t.

(** The combination of the per-keyword results by the logic mode. *)
Definition combined (m : AdvancedSearchModel) (hit : string -> Prop) : Prop :=
  match logic m with
  | OR => exists keyword, In keyword (keywords m) /\ hit keyword
  | AND => forall keyword, In keyword (keywords m) -> hit keyword
  end.


(* ===================================================================== *)
(** ** Regex mode *)
(* ===================================================================== *)


Definition set_use_regex (m : AdvancedSearchModel) (b : bool) :=
  {| keywords := keywords m; logic := logic m;
     case_sensitive := case_sensitive m; partial_match := partial_match m;
     use_regex := b; whole_word := whole_word m |}.

(* ===================================================================== *)
(** ** The selection gesture *)
(* ===================================================================== *)

(** The locals [x], [y], [w], [h] of [mouseReleaseEvent]. *)
Definition sel_x (self : RegionSelectionWindow) : Z :=
  Z.min (fst (start self)) (fst (end_ self)).
Definition sel_y (self : RegionSelectionWindow) : Z :=
  Z.min (snd (start self)) (snd (end_ self)).
Definition sel_w (self : RegionSelectionWindow) : Z :=
  Z.abs (fst (start self) - fst (end_ self)).
Definition sel_h (self : RegionSelectionWindow) : Z :=
  Z.abs (snd (start self) - snd (end_ self)).

(** The monitor under the centre of the selection. *)
Definition monitor_at_centre (self : RegionSelectionWindow)
  (monitor_info : dict Monitor) : option Z :=
  get_monitor_at_point self monitor_info
    (sel_x self + sel_w self / 2) (sel_y self + sel_h self / 2).

(** The release emitted no region. *)
Definition rejected (o : release_outcome) : bool :=
  match o with
  | Selected _ _ => false
  | _ => true
  end.

(** One monitor of 1920 by 1080 at the origin, and a selection window
    that covers it. *)
Definition one_monitor : dict Monitor :=
  get_monitor_info
    [{| sr_left := 0; sr_top := 0; sr_width := 1920; sr_height := 1080 |}].

Definition drag (from to : Z * Z) : RegionSelectionWindow :=
  {| start := from; end_ := to; is_selecting := true;
     win_x := 0; win_y := 0 |}.

(* ===================================================================== *)
(** ** Coordinates *)
(* ===================================================================== *)

Definition Zrange (lo : Z) (n : nat) : list Z :=
  map (fun i => lo + Z.of_nat i) (seq 0 n).

(** [int(v / scale_factor)] is the floor of the exact quotient
    [100 * v / scale_percent]. *)
Definition unscale_exact (scale_percent : Z) (scale_factor : float) (v : Z)
  : bool :=
  match unscale v scale_factor with
  | Some q => q =? 100 * v / scale_percent
  | None => false
  end.

Definition unscale_exact_below (n : nat) (scale_percent : Z) : bool :=
  let scale_factor := scale_factor_of scale_percent in
  forallb (unscale_exact scale_percent scale_factor) (Zrange 0 n).

(** The settings of the scale spin box at which the scale factor is a
    power of two: 0.5, 1.0 and 2.0. *)
Definition binary_scales : list Z := [50; 100; 200].

(** The equation [g = origin + offset + local / (scale_percent / 100)]
    over the rationals, cleared of its denominator. *)
Definition exact_global (origin offset local scale_percent g : Z) : Prop :=
  (g - origin - offset) * scale_percent = 100 * local.

(** The match details of a fragment in which the first keyword was
    found. *)
Definition found_first (keyword text : string) : MatchDetails :=
  {| matched := true; details_keywords := [keyword];
     details_text := Some text |}.

(* ===================================================================== *)
(** ** A cycle over two regions *)
(* ===================================================================== *)

(** Two monitors side by side. *)
Definition two_monitors : list ScreenRect :=
  [{| sr_left := 0; sr_top := 0; sr_width := 1920; sr_height := 1080 |};
   {| sr_left := 1920; sr_top := 0; sr_width := 1280; sr_height := 1024 |}].

(** A capture that fails on monitor 1 and reads two fragments on any
    other monitor. *)
Definition capture_failing_on_1 (monitor_idx : Z) (area : ScreenRect)
  : option (list Fragment) :=
  if monitor_idx =? 1 then None
  else Some [ {| frag_text := " Apple pie "; frag_left := 10; frag_top := 10;
                 frag_width := 80; frag_height := 12 |};
              {| frag_text := "bread"; frag_left := 10; frag_top := 30;
                 frag_width := 40; frag_height := 12 |} ].

(** A capture that reads the same two fragments on every monitor. *)
Definition capture_working (monitor_idx : Z) (area : ScreenRect)
  : option (list Fragment) :=
  capture_failing_on_1 2 area.

Definition two_regions : Regions :=
  [(1, Some (0, 0, 800, 600)); (2, Some (100, 50, 300, 200))].

(* ===================================================================== *)
(** ** A run of the worker *)
(* ===================================================================== *)

Definition sample_box : Box :=
  {| box_x := 110; box_y := 60; box_w := 80; box_h := 12;
     box_monitor := 2; box_keyword := 0 |}.

(** The world after one cycle that assembled and published
    [[sample_box]], the lock still held by the worker. *)
Definition after_one_cycle : SharedState.World :=
  {| SharedState.store := [[]; [sample_box]];
     SharedState.matched_boxes_ref := 1%nat;
     SharedState.lock := Some SharedState.Worker;
     SharedState.worker := SharedState.Published;
     SharedState.renderer := SharedState.Waiting;
     SharedState.published := [[sample_box]];
     SharedState.observed := [] |}.

(* ===================================================================== *)
(** ** What the patterns of the fragment mean *)
(* ===================================================================== *)

Module RegexSpec.

(** [lang ignore_case r w]: the expression [r] matches the whole of
    [w].  An iteration of a star consumes at least one character (empty
    iterations add nothing to the language). *)
Inductive lang (ignore_case : bool) : Regex.re -> string -> Prop :=
| lang_eps : lang ignore_case Regex.Eps EmptyString
| lang_any c :
    Ascii.eqb c "010" = false ->
    lang ignore_case Regex.Any (String c EmptyString)
| lang_chr c d :
    Regex.same_char ignore_case c d = true ->
    lang ignore_case (Regex.Chr d) (String c EmptyString)
| lang_cat a b s t :
    lang ignore_case a s -> lang ignore_case b t ->
    lang ignore_case (Regex.Cat a b) (s ++ t)%string
| lang_alt_l a b s :
    lang ignore_case a s -> lang ignore_case (Regex.Alt a b) s
| lang_alt_r a b s :
    lang ignore_case b s -> lang ignore_case (Regex.Alt a b) s
| lang_star_nil a : lang ignore_case (Regex.Star a) EmptyString
| lang_star_cons a c s t :
    lang ignore_case a (String c s) ->
    lang ignore_case (Regex.Star a) t ->
    lang ignore_case (Regex.Star a) (String c (s ++ t)%string).

(** A pattern without special characters, and the expression that
    spells it. *)
Definition plain (pattern : string) : bool :=
  all_chars (fun c => negb (Regex.special c)) pattern.

Fixpoint literal (pattern : string) : Regex.re :=
  match pattern with
  | EmptyString => Regex.Eps
  | String c r => Regex.Cat (Regex.Chr c) (literal r)
  end.

End RegexSpec.

(* ===================================================================== *)
(** ** Further definitions: flags, lines of text *)
(* ===================================================================== *)

Definition set_whole_word (m : AdvancedSearchModel) (b : bool) :=
  {| keywords := keywords m; logic := logic m;
     case_sensitive := case_sensitive m; partial_match := partial_match m;
     use_regex := use_regex m; whole_word := b |}.

(** The result of the regex block when no pattern is malformed, stated
    on the outcomes of the engine. *)
Definition finds (re_search : string -> string -> bool -> re_result)
  (m : AdvancedSearchModel) (text pattern : string) : Prop :=
  re_search pattern text (negb (case_sensitive m)) = ReMatch.

(** A fragment adds a box only if both [match_text] and the flag of
    [get_match_details] say so; [never_both] says they never do. *)
Definition never_both (re_search : string -> string -> bool -> re_result)
  (m : AdvancedSearchModel) : Prop :=
  forall text,
    match_text re_search m text && matched (get_match_details m text) = false.

(** A box made for a monitor, with a keyword index inside the keyword
    list. *)
Definition box_from (m : AdvancedSearchModel) (monitor_idx : Z) (box : Box)
  : Prop :=
  box_monitor box = monitor_idx /\
  0 <= box_keyword box < Z.of_nat (length (keywords m)).

(* ===================================================================== *)
(** ** The selection gesture and the overlay *)
(* ===================================================================== *)

(** [RegionSelectionWindow.mousePressEvent]; [pos] is [event.pos()]. *)
Definition mousePressEvent (self : RegionSelectionWindow) (pos : Z * Z)
  (left_button : bool) : RegionSelectionWindow :=
  if left_button then
    {| start := pos; end_ := pos; is_selecting := true;
       win_x := win_x self; win_y := win_y self |}
  else self.

(** [RegionSelectionWindow.mouseMoveEvent] *)
Definition mouseMoveEvent (self : RegionSelectionWindow) (pos : Z * Z)
  : RegionSelectionWindow :=
  if is_selecting self then
    {| start := start self; end_ := pos; is_selecting := is_selecting self;
       win_x := win_x self; win_y := win_y self |}
  else self.

(** A press of the left button followed by mouse moves. *)
Definition gesture (self : RegionSelectionWindow) (press : Z * Z)
  (moves : list (Z * Z)) : RegionSelectionWindow :=
  fold_left mouseMoveEvent moves (mousePressEvent self press true).

(** The same drag, made in the other direction. *)
Definition reversed (self : RegionSelectionWindow) : RegionSelectionWindow :=
  {| start := end_ self; end_ := start self;
     is_selecting := is_selecting self;
     win_x := win_x self; win_y := win_y self |}.

(** The test of [get_monitor_at_point] on one monitor: both edges are
    inclusive. *)
Definition contains_point (monitor : Monitor) (global_x global_y : Z)
  : Prop :=
  mon_left monitor <= global_x <= mon_right monitor /\
  mon_top monitor <= global_y <= mon_bottom monitor.

(** The entry [get_monitor_info] makes for the monitor numbered [i]. *)
Definition monitor_of (i : Z) (monitor : ScreenRect) : Monitor :=
  {| mon_index := i;
     mon_left := sr_left monitor; mon_top := sr_top monitor;
     mon_width := sr_width monitor; mon_height := sr_height monitor;
     mon_right := sr_left monitor + sr_width monitor;
     mon_bottom := sr_top monitor + sr_height monitor |}.

(** A [QRect]: x, y, width, height. *)
Definition QRect := (Z * Z * Z * Z)%type.

(** [del d[k]] *)
Fixpoint dict_del (V : Type) (d : dict V) (k : Z) : dict V :=
  match d with
  | [] => []
  | (k', v) :: r => if k =? k' then r else (k', v) :: dict_del r k
  end.

(** [OverlayWindow.set_region] on [self.region_rects]; a falsy
    [region] removes the rectangle of the monitor, and a region for an
    unknown monitor changes nothing. *)
Definition set_region (region_rects : dict QRect)
  (monitor_info : dict Monitor) (region : option Region)
  (monitor_index : Z) : dict QRect :=
  match region with
  | Some (x, y, w, h) =>
      match dict_get monitor_info monitor_index with
      | Some monitor =>
          let global_x := x + mon_left monitor in
          let global_y := y + mon_top monitor in
          dict_set region_rects monitor_index (global_x, global_y, w, h)
      | None => region_rects
      end
  | None =>
      match dict_get region_rects monitor_index with
      | Some _ => dict_del region_rects monitor_index
      | None => region_rects
      end
  end.




(** One iteration of the loop of [ControlPanel.select_all_monitors],
    on [selected_regions] and on the rectangles of the overlay. *)
Definition select_monitor (monitor_info : dict Monitor)
  (st : Regions * dict QRect) (entry : Z * Monitor) : Regions * dict QRect :=
  let idx := fst entry in
  match dict_get monitor_info idx with
  | Some monitor =>
      let region := (0, 0, mon_width monitor, mon_height monitor) in
      (dict_set (fst st) idx (Some region),
       set_region (snd st) monitor_info (Some region) idx)
  | None => st
  end.

(** [ControlPanel.select_all_monitors] *)
Definition select_all_monitors (monitor_info : dict Monitor)
  (state : Regions * dict QRect) : Regions * dict QRect :=
  fold_left (select_monitor monitor_info) monitor_info state.

(** The selection rectangle in global coordinates. *)
Definition selection_rect (self : RegionSelectionWindow) : QRect :=
  (sel_x self + win_x self, sel_y self + win_y self,
   sel_w self, sel_h self).

(* ===================================================================== *)
(** ** The control panel: keyword entry and the saved configuration *)
(* ===================================================================== *)

(** [text.split('\n')]; [cur] is the line being read. *)
Fixpoint split_from (cur : string) (s : string) : list string :=
  match s with
  | EmptyString => [cur]
  | String c r =>
      if Ascii.eqb c "010" then cur :: split_from EmptyString r
      else split_from (cur ++ String c EmptyString) r
  end.

Definition split_lines (s : string) : list string :=
  split_from EmptyString s.

(** ["\n".join(l)] *)
Fixpoint join_lines (l : list string) : string :=
  match l with
  | [] => EmptyString
  | x :: r =>
      match r with
      | [] => x
      | _ :: _ => (x ++ String "010" (join_lines r))%string
      end
  end.

(** The loop shared by [ControlPanel.add_keyword], [start_search] and
    [load_config]: every line is stripped, and added if something is
    left. *)
Definition add_lines (m : AdvancedSearchModel) (lines : list string)
  : AdvancedSearchModel :=
  fold_left
    (fun m line =>
       let keyword := PyStr.strip line in
       if PyStr.is_empty keyword then m else add_keyword m keyword)
    lines m.

(** The widgets of the control panel that the keyword model and the
    configuration file depend on. *)
Record ControlPanel := {
  search_model : AdvancedSearchModel;
  keywords_input : string;
  or_radio : bool;
  case_sensitive_check : bool;
  partial_match_check : bool;
  whole_word_check : bool;
  regex_check : bool
}.

Definition with_model (p : ControlPanel) (m : AdvancedSearchModel)
  : ControlPanel :=
  {| search_model := m; keywords_input := keywords_input p;
     or_radio := or_radio p;
     case_sensitive_check := case_sensitive_check p;
     partial_match_check := partial_match_check p;
     whole_word_check := whole_word_check p;
     regex_check := regex_check p |}.

(** [ControlPanel.update_logic] *)
Definition update_logic (p : ControlPanel) : ControlPanel :=
  let m := search_model p in
  with_model p
    {| keywords := keywords m;
       logic := if or_radio p then OR else AND;
       case_sensitive := case_sensitive m; partial_match := partial_match m;
       use_regex := use_regex m; whole_word := whole_word m |}.

(** [ControlPanel.update_search_model] *)
Definition update_search_model (p : ControlPanel) : ControlPanel :=
  let m := search_model p in
  with_model p
    {| keywords := keywords m; logic := logic m;
       case_sensitive := case_sensitive_check p;
       partial_match := partial_match_check p;
       use_regex := regex_check p;
       whole_word := whole_word_check p |}.

(** [ControlPanel.start_search]; the second component is the global
    [ocr_active]. *)
Definition start_search (p : ControlPanel) (ocr_active : bool)
  : ControlPanel * bool :=
  let text := PyStr.strip (keywords_input p) in
  let p1 :=
    if PyStr.is_empty text then p
    else with_model p
           (add_lines (clear_keywords (search_model p)) (split_lines text)) in
  match keywords (search_model p1) with
  | [] => (p1, ocr_active)
  | _ :: _ => (update_logic (update_search_model p1), true)
  end.

(** The keys of the configuration file that the keyword model and the
    regions depend on; [None] is a missing key.  The keys of
    ["regions"] are written as decimal strings and read back with
    [int]. *)
Record Config := {
  cfg_regions : option (dict Region);
  cfg_keywords : option string;
  cfg_logic : option string;
  cfg_case_sensitive : option bool;
  cfg_partial_match : option bool;
  cfg_whole_word : option bool;
  cfg_use_regex : option bool
}.

(** The dictionary [save_config] writes. *)
Definition save_config (p : ControlPanel) (selected_regions : Regions)
  : Config :=
  let serializable_regions :=
    fold_left
      (fun d entry =>
         match snd entry with
         | Some region => dict_set d (fst entry) region
         | None => d
         end)
      selected_regions [] in
  let keywords_text := PyStr.strip (keywords_input p) in
  let keywords_text :=
    match keywords (search_model p) with
    | _ :: _ =>
        if PyStr.is_empty keywords_text
        then join_lines (keywords (search_model p))
        else keywords_text
    | [] => keywords_text
    end in
  {| cfg_regions := Some serializable_regions;
     cfg_keywords := Some keywords_text;
     cfg_logic := Some (if or_radio p then "OR" else "AND")%string;
     cfg_case_sensitive := Some (case_sensitive_check p);
     cfg_partial_match := Some (partial_match_check p);
     cfg_whole_word := Some (whole_word_check p);
     cfg_use_regex := Some (regex_check p) |}.

Definition get_or (A : Type) (o : option A) (default : A) : A :=
  match o with
  | Some x => x
  | None => default
  end.

(** What [load_config] does with a parsed configuration, on the panel
    and on [selected_regions]. *)
Definition load_config (config : Config) (p : ControlPanel)
  (selected_regions : Regions) : ControlPanel * Regions :=
  let selected_regions :=
    match cfg_regions config with
    | Some regions =>
        fold_left
          (fun d entry => dict_set d (fst entry) (Some (snd entry)))
          regions selected_regions
    | None => selected_regions
    end in
  let keywords_text := get_or (cfg_keywords config) EmptyString in
  let m :=
    if PyStr.is_empty keywords_text then search_model p
    else add_lines (clear_keywords (search_model p))
           (split_lines keywords_text) in
  let p :=
    {| search_model := m; keywords_input := keywords_text;
       or_radio :=
         negb (String.eqb (get_or (cfg_logic config) "OR"%string)
                 "AND"%string);
       case_sensitive_check := get_or (cfg_case_sensitive config) false;
       partial_match_check := get_or (cfg_partial_match config) true;
       whole_word_check := get_or (cfg_whole_word config) false;
       regex_check := get_or (cfg_use_regex config) false |} in
  (update_logic (update_search_model p), selected_regions).

(** The widgets show what the model holds. *)
Definition in_sync (p : ControlPanel) : Prop :=
  logic (search_model p) = (if or_radio p then OR else AND) /\
  case_sensitive (search_model p) = case_sensitive_check p /\
  partial_match (search_model p) = partial_match_check p /\
  whole_word (search_model p) = whole_word_check p /\
  use_regex (search_model p) = regex_check p.

(** A keyword as the panel enters it: stripped, not empty, on one
    line. *)
Definition entered (keyword : string) : Prop :=
  PyStr.strip keyword = keyword /\ keyword <> EmptyString /\
  all_chars (fun c => negb (Ascii.eqb c "010")) keyword = true.

(** The entries of a registry that hold a region. *)
Definition with_region (selected_regions : Regions) (k : Z)
  : option (option Region) :=
  match dict_get selected_regions k with
  | Some (Some region) => Some (Some region)
  | _ => None
  end.

(* ===================================================================== *)
(** * Properties *)
(* ===================================================================== *)

Unset Implicit Arguments.

(** ** Facts about the string operations *)

Module PyStrFacts.

Import PyStr.

Lemma mem_In (x : string) (l : list string) :
  mem x l = true <-> In x l.
Proof.
  unfold mem. rewrite existsb_exists. split.
  - intros [y [Hy E]]. apply String.eqb_eq in E. now subst.
  - intros H. exists x. split; [assumption | apply String.eqb_refl].
Qed.

Lemma mem_false (x : string) (l : list string) :
  mem x l = false <-> ~ In x l.
Proof.
  rewrite <- mem_In. destruct (mem x l); split; congruence.
Qed.

Lemma is_empty_true (s : string) : is_empty s = true <-> s = "".
Proof. destruct s; simpl; split; congruence. Qed.

Lemma is_empty_false (s : string) : is_empty s = false <-> s <> "".
Proof. destruct s; simpl; split; congruence. Qed.






Lemma remove_first_split (x : string) (l : list string) :
  In x l ->
  exists pre post,
    l = (pre ++ x :: post)%list /\ ~ In x pre /\
    remove_first x l = (pre ++ post)%list.
Proof.
  induction l as [|y r IH]; simpl; [tauto|].
  intros H. destruct (String.eqb_spec x y) as [->|N].
  - exists [], r. simpl. tauto.
  - destruct H as [H|H]; [congruence|].
    destruct (IH H) as [pre [post [E [Hn Er]]]].
    exists (y :: pre), post. simpl. rewrite <- E, Er.
    repeat split; try reflexivity. intros [F|F]; [congruence | tauto].
Qed.



Lemma prefix_spec (k t : string) :
  prefix k t = true <-> exists after, t = (k ++ after)%string.
Proof.
  revert t. induction k as [|a k IH]; intros t.
  - split; [intros _; now exists t | intros _; now destruct t].
  - destruct t as [|b t]; simpl.
    + split; [discriminate | intros [x Hx]; discriminate].
    + destruct (ascii_dec a b) as [->|N].
      * rewrite IH. split; intros [x Hx]; exists x; congruence.
      * split; [discriminate | intros [x Hx]; congruence].
Qed.

(** [contains] decides occurrence. *)
Lemma contains_spec (k t : string) :
  contains k t = true <-> occurs_in k t.
Proof.
  unfold occurs_in. induction t as [|c t IH]; cbn [contains].
  - rewrite orb_false_r, prefix_spec. split.
    + intros [x Hx]. now exists "", x.
    + intros [[|a pre] [post H]]; [now exists post | discriminate].
  - rewrite orb_true_iff, prefix_spec, IH. split.
    + intros [[x Hx] | [pre [post H]]].
      * now exists "", x.
      * exists (String c pre), post. simpl. congruence.
    + intros [[|a pre] [post H]].
      * left. now exists post.
      * right. exists pre, post. simpl in H. congruence.
Qed.

Lemma lower_char_not_upper (c : ascii) : not_upper (lower_char c) = true.
Proof.
  destruct c as [[] [] [] [] [] [] [] []]; reflexivity.
Qed.

Lemma lower_not_upper (s : string) : all_chars not_upper (lower s) = true.
Proof.
  induction s as [|c r IH]; simpl; [reflexivity|].
  now rewrite lower_char_not_upper, IH.
Qed.

Lemma lower_fixed (s : string) :
  all_chars not_upper s = true -> lower s = s.
Proof.
  induction s as [|c r IH]; simpl; [reflexivity|].
  rewrite andb_true_iff. intros [Hc Hr]. rewrite (IH Hr).
  unfold lower_char. unfold not_upper in Hc.
  destruct (is_upper c); [discriminate | reflexivity].
Qed.

Lemma all_chars_app (P : ascii -> bool) (s t : string) :
  all_chars P (s ++ t)%string = all_chars P s && all_chars P t.
Proof.
  induction s as [|c r IH]; simpl; [reflexivity|].
  now rewrite IH, andb_assoc.
Qed.

(** The characters of the words are characters of the text. *)
Lemma words_from_chars (P : ascii -> bool) (s cur : string) :
  all_chars P cur = true -> all_chars P s = true ->
  Forall (fun w => all_chars P w = true) (words_from cur s).
Proof.
  revert cur. induction s as [|c r IH]; intros cur Hc Hs; simpl.
  - unfold flush. destruct (is_empty cur); repeat constructor. assumption.
  - simpl in Hs. apply andb_true_iff in Hs. destruct Hs as [Pc Hr].
    destruct (is_word c).
    + apply IH; [|assumption].
      rewrite all_chars_app. simpl. now rewrite Hc, Pc.
    + apply Forall_app. split.
      * unfold flush. destruct (is_empty cur); repeat constructor. assumption.
      * apply IH; [reflexivity | assumption].
Qed.

Lemma findall_words_lower (t w : string) :
  In w (findall_words (lower t)) -> lower w = w.
Proof.
  intros H. apply lower_fixed.
  pose proof (@words_from_chars not_upper (lower t) "" eq_refl
                (lower_not_upper t)) as F.
  rewrite Forall_forall in F. now apply F.
Qed.

Lemma append_nil_r (s : string) : (s ++ "")%string = s.
Proof. induction s as [|c r IH]; simpl; congruence. Qed.

Lemma append_assoc (a b c : string) :
  ((a ++ b) ++ c)%string = (a ++ b ++ c)%string.
Proof. induction a as [|x r IH]; simpl; congruence. Qed.

Lemma append_nil (a b : string) :
  (a ++ b)%string = "" -> a = "" /\ b = "".
Proof. destruct a; simpl; [tauto | discriminate]. Qed.

Lemma flush_In (cur w : string) :
  In w (flush cur) <-> w = cur /\ cur <> "".
Proof.
  unfold flush. destruct cur; simpl.
  - split; [tauto | intros [_ H]; congruence].
  - split.
    + intros [<- | []]. split; [reflexivity | discriminate].
    + intros [-> _]. now left.
Qed.

Lemma run_then_nil (cur w : string) :
  run_then cur "" w <-> w = cur /\ cur <> "".
Proof.
  unfold run_then. split.
  - intros [r [after [E [_ [_ [-> Hne]]]]]].
    symmetry in E. apply append_nil in E. destruct E as [-> _].
    rewrite append_nil_r in *. tauto.
  - intros [-> Hne]. exists "", "". simpl. rewrite append_nil_r.
    repeat split; assumption.
Qed.

Lemma word_later_nil (w : string) : ~ word_later "" w.
Proof.
  intros [before [after [E [[p [c [-> _]]] _]]]].
  symmetry in E. apply append_nil in E. destruct E as [E _].
  apply append_nil in E. destruct E as [_ E]. discriminate.
Qed.

(** Reading a word character extends the run. *)
Lemma run_then_word (cur s w : string) (c : ascii) :
  is_word c = true ->
  (run_then (cur ++ String c "") s w <-> run_then cur (String c s) w).
Proof.
  intros Hc. unfold run_then. split.
  - intros [r [after [-> [Hr [Ha [-> Hne]]]]]].
    exists (String c r), after. simpl. rewrite Hc, Hr.
    rewrite append_assoc in *. simpl in *. repeat split; assumption.
  - intros [[|c' r] [after [E [Hr [Ha [-> Hne]]]]]]; simpl in E.
    + subst after. simpl in Ha. congruence.
    + inversion E; subst. simpl in Hr. apply andb_true_iff in Hr.
      exists r, after. rewrite append_assoc. simpl.
      repeat split; tauto.
Qed.

Lemma ends_in_nonword_cons (c : ascii) (s : string) :
  ends_in_nonword s -> ends_in_nonword (String c s).
Proof.
  intros [p [d [-> Hd]]]. exists (String c p), d. split; [reflexivity|].
  assumption.
Qed.

Lemma word_later_cons (s w : string) (c : ascii) :
  word_later s w -> word_later (String c s) w.
Proof.
  intros [before [after [-> [Hb H]]]].
  exists (String c before), after. split; [reflexivity|].
  split; [now apply ends_in_nonword_cons | assumption].
Qed.

(** A word that starts later, seen from the character before. *)
Lemma word_later_inv (s w : string) (c : ascii) :
  word_later (String c s) w ->
  (is_word c = false /\ run_then "" s w) \/ word_later s w.
Proof.
  intros [before [after [E [[p [d [-> Hd]]] [Hne [Hw Ha]]]]]].
  destruct p as [|c' p]; simpl in E; inversion E; subst.
  - left. split; [assumption|].
    exists w, after. repeat split; assumption.
  - right. exists (p ++ String d "")%string, after.
    split; [reflexivity|].
    split; [now exists p, d|]. repeat split; assumption.
Qed.

(** [words_from] lists the words. *)
Lemma words_from_spec (s cur w : string) :
  In w (words_from cur s) <-> run_then cur s w \/ word_later s w.
Proof.
  revert cur. induction s as [|c s IH]; intros cur; simpl.
  - rewrite flush_In, run_then_nil. split; [tauto|].
    intros [H | H]; [assumption | now apply word_later_nil in H].
  - destruct (is_word c) eqn:Hc.
    + rewrite IH, (run_then_word cur s w c Hc). split.
      * intros [H | H]; [now left | right; now apply word_later_cons].
      * intros [H | H]; [now left|].
        apply word_later_inv in H. destruct H as [[F _] | H];
          [congruence | now right].
    + rewrite in_app_iff, flush_In, IH. split.
      * intros [[-> Hne] | [H | H]].
        -- left. exists "", (String c s). simpl. rewrite append_nil_r.
           repeat split; assumption.
        -- right. destruct H as [r [after [-> [Hr [Ha [-> Hne]]]]]].
           exists (String c ""), after. simpl.
           split; [reflexivity|].
           split; [now exists "", c|]. repeat split; assumption.
        -- right. now apply word_later_cons.
      * intros [H | H].
        -- left. destruct H as [[|c' r] [after [E [Hr [Ha [-> Hne]]]]]].
           ++ rewrite append_nil_r in *. tauto.
           ++ simpl in E. inversion E; subst. simpl in Hr.
              rewrite Hc in Hr. discriminate.
        -- right. apply word_later_inv in H. tauto.
Qed.

(** [findall_words] lists exactly the words of the text. *)
Lemma findall_words_spec (t w : string) :
  In w (findall_words t) <-> is_word_of w t.
Proof.
  unfold findall_words. rewrite words_from_spec. split.
  - intros [[r [after [-> [Hr [Ha [-> Hne]]]]]] | H].
    + exists "", after. simpl in *. repeat split; try assumption.
      now left.
    + destruct H as [before [after [-> [Hb [Hne [Hw Ha]]]]]].
      exists before, after. repeat split; try assumption. now right.
  - intros [before [after [-> [Hne [Hw [[-> | Hb] Ha]]]]]].
    + left. exists w, after. simpl. repeat split; assumption.
    + right. exists before, after. repeat split; assumption.
Qed.

End PyStrFacts.

(** ** The keyword list *)

Section KeywordList.

Import PyStr PyStrFacts.


Lemma add_keyword_cases (m : AdvancedSearchModel) (k : string) :
  (strip k <> "" /\ ~ In (strip k) (keywords m) /\
   add_keyword m k = set_keywords m (keywords m ++ [strip k])%list)
  \/
  ((strip k = "" \/ In (strip k) (keywords m)) /\ add_keyword m k = m).
Proof.
  unfold add_keyword.
  destruct (is_empty (strip k)) eqn:E; simpl.
  - right. apply is_empty_true in E. tauto.
  - apply is_empty_false in E.
    destruct (mem (strip k) (keywords m)) eqn:M; simpl.
    + right. apply mem_In in M. tauto.
    + left. apply mem_false in M. tauto.
Qed.

Lemma remove_keyword_cases (m : AdvancedSearchModel) (k : string) :
  (In k (keywords m) /\
   remove_keyword m k = set_keywords m (remove_first k (keywords m)))
  \/
  (~ In k (keywords m) /\ remove_keyword m k = m).
Proof.
  unfold remove_keyword.
  destruct (mem k (keywords m)) eqn:M.
  - left. apply mem_In in M. tauto.
  - right. apply mem_false in M. tauto.
Qed.










End KeywordList.


Example keyword_list_example :
  keywords (run_ops init_model
              [Add "  cat "; Add "dog"; Add "cat"; Add "   "; Remove "cat";
               Add "cat"; Add "bird"; Remove "fish"])
  = ["dog"; "cat"; "bird"].
Proof. reflexivity. Qed.

(** C10.  Whatever the logic mode and the flags, [match_text] returns
    [False] and [get_match_details] returns
    [{"matched": False, "keywords": []}] when the keyword list is empty
    or the text is empty. *)
Theorem empty_input_no_match
  (re_search : string -> string -> bool -> re_result)
  (m : AdvancedSearchModel) (text : string) :
  keywords m = [] \/ text = "" ->
  match_text re_search m text = false /\
  get_match_details m text =
    {| matched := false; details_keywords := []; details_text := None |}.
Proof.
  unfold match_text, get_match_details.
  intros [E | E]; rewrite E.
  - split; reflexivity.
  - destruct (keywords m); split; reflexivity.
Qed.

Lemma empty_input_no_match_witness :
  (keywords init_model = [] \/ "apple" = "") /\
  match_text Regex.re_search init_model "apple" = false /\
  get_match_details init_model "apple" =
    {| matched := false; details_keywords := []; details_text := None |}.
Proof.
  split.
  - left. reflexivity.
  - apply (@empty_input_no_match Regex.re_search init_model "apple").
    left. reflexivity.
Defined.

Lemma empty_text_no_match_example :
  let m := set_keywords init_model ["apple"] in
  match_text Regex.re_search m "" = false /\
  matched (get_match_details m "") = false.
Proof. split; reflexivity. Qed.

(** ** Literal matching *)

Section Literal.

Import PyStr PyStrFacts.

Variable re_search : string -> string -> bool -> re_result.

Lemma fold_case_word (m : AdvancedSearchModel) (text word : string) :
  In word (findall_words (fold_case m text)) -> fold_case m word = word.
Proof.
  unfold fold_case. destruct (case_sensitive m); [reflexivity|].
  apply findall_words_lower.
Qed.

(** The loop body computes the declarative per-keyword match. *)
Lemma keyword_matches_spec (m : AdvancedSearchModel) (text keyword : string) :
  keyword_matches m text keyword = true <-> keyword_hit m text keyword.
Proof.
  unfold keyword_matches, keyword_hit.
  destruct (partial_match m); [destruct (whole_word m)|].
  - rewrite <- findall_words_spec, existsb_exists. split.
    + intros [w [Hw E]]. apply String.eqb_eq in E.
      rewrite (fold_case_word m text w Hw) in E. now subst.
    + intros H. exists (fold_case m keyword). split; [assumption|].
      rewrite (fold_case_word m text _ H). apply String.eqb_refl.
  - apply contains_spec.
  - apply String.eqb_eq.
Qed.

Lemma literal_match_spec (m : AdvancedSearchModel) (text : string) :
  literal_match m text = true <-> combined m (keyword_hit m text).
Proof.
  unfold literal_match, combined. destruct (logic m).
  - rewrite existsb_exists. split.
    + intros [b [Hb E]]. apply in_map_iff in Hb.
      destruct Hb as [k [Hk Hin]]. exists k. split; [assumption|].
      apply keyword_matches_spec. congruence.
    + intros [k [Hin Hk]]. exists true. split; [|reflexivity].
      apply in_map_iff. exists k. split; [|assumption].
      now apply keyword_matches_spec.
  - rewrite forallb_forall. split.
    + intros H k Hin. apply keyword_matches_spec.
      apply H. now apply in_map.
    + intros H b Hb. apply in_map_iff in Hb.
      destruct Hb as [k [<- Hin]]. apply keyword_matches_spec. now apply H.
Qed.

(** Outside regex mode and past the guard, [match_text] is the literal
    match. *)
Lemma match_text_literal (m : AdvancedSearchModel) (text : string) :
  use_regex m = false -> keywords m <> [] -> text <> "" ->
  match_text re_search m text = literal_match m text.
Proof.
  intros Hr Hk Ht. unfold match_text. rewrite Hr.
  destruct (keywords m); [congruence|].
  destruct text; [congruence | reflexivity].
Qed.

End Literal.




Example scenario_or :
  let m := set_keywords init_model ["apple"; "banana"] in
  match_text Regex.re_search m "I ate an apple today" = true /\
  details_keywords (get_match_details m "I ate an apple today") = ["apple"] /\
  match_text Regex.re_search m "no fruit here" = false.
Proof. repeat split; reflexivity. Qed.

Example scenario_and :
  let m := {| keywords := ["cat"; "dog"]; logic := AND;
              case_sensitive := false; partial_match := true;
              use_regex := false; whole_word := false |} in
  match_text Regex.re_search m "the cat and the dog" = true /\
  match_text Regex.re_search m "only the cat" = false.
Proof. split; reflexivity. Qed.


(** ** Regex mode *)

Example regex_unbalanced : Regex.search "(" "abc" true = Some ReError.
Proof. reflexivity. Qed.

Example regex_dot : Regex.search "a.c" "xxabcxx" true = Some ReMatch.
Proof. reflexivity. Qed.

Example regex_fragment :
  Regex.search "(ab|c)*d" "zzabcabd" false = Some ReMatch /\
  Regex.search "(ab|c)+d" "zzd" false = Some ReNoMatch /\
  Regex.search "A\.B" "xa.b" true = Some ReMatch /\
  Regex.search "A\.B" "xaxb" true = Some ReNoMatch /\
  Regex.search "A\.B" "xa.b" false = Some ReNoMatch /\
  Regex.search "colou?r" "The Color" true = Some ReMatch /\
  Regex.search "*a" "a" false = Some ReError /\
  Regex.search "a)" "a" false = Some ReError /\
  Regex.search "a**" "a" false = Some ReError /\
  Regex.search "[a-z]" "a" false = None.
Proof. repeat split; reflexivity. Qed.

Section RegexMode.

Variable re_search : string -> string -> bool -> re_result.



Lemma match_text_regex (m : AdvancedSearchModel) (text : string) :
  use_regex m = true -> keywords m <> [] -> text <> "" ->
  match_text re_search m text =
  match regex_loop re_search m text (keywords m) with
  | Some result => result
  | None => literal_match m text
  end.
Proof.
  intros Hr Hk Ht. unfold match_text. rewrite Hr.
  destruct (keywords m); [congruence|].
  destruct text; [congruence | reflexivity].
Qed.

End RegexMode.

(** [get_match_details] never reads [use_regex]. *)
Lemma details_ignore_regex (m : AdvancedSearchModel) (b : bool)
  (text : string) :
  get_match_details (set_use_regex m b) text = get_match_details m text.
Proof. reflexivity. Qed.




(** C6: in regex mode under OR the pattern ["a.c"] finds a match in
    ["abc"] and [match_text] returns true, but [get_match_details]
    compares literally and returns no keyword. *)
Theorem details_miss_regex_match :
  let m := {| keywords := ["a.c"]; logic := OR;
              case_sensitive := false; partial_match := true;
              use_regex := true; whole_word := false |} in
  Regex.search "a.c" "abc" true = Some ReMatch /\
  match_text Regex.re_search m "abc" = true /\
  get_match_details m "abc" =
    {| matched := false; details_keywords := [];
       details_text := Some "abc" |}.
Proof. repeat split; reflexivity. Qed.



Example whole_word_cat :
  let m := {| keywords := ["cat"]; logic := OR;
              case_sensitive := false; partial_match := true;
              use_regex := false; whole_word := true |} in
  match_text Regex.re_search m "category" = false /\
  match_text Regex.re_search m "a cat ran" = true /\
  match_text Regex.re_search m "A CAT, ran" = true /\
  PyStr.findall_words "a cat-flap, ran_2 !" = ["a"; "cat"; "flap"; "ran_2"].
Proof. repeat split; reflexivity. Qed.

(** ** Setting a region *)

Lemma find_dict_get (V : Type) (f : Z * V -> bool) (d : dict V)
  (k : Z) (v : V) :
  find f d = Some (k, v) -> dict_get d k <> None.
Proof.
  induction d as [|[k' v'] r IH]; simpl; [discriminate|].
  destruct (k =? k') eqn:E; [discriminate|].
  destruct (f (k', v')).
  - intros H. inversion H; subst. rewrite Z.eqb_refl in E. discriminate.
  - exact IH.
Qed.

Lemma monitor_at_point_known (self : RegionSelectionWindow)
  (monitor_info : dict Monitor) (x y idx : Z) :
  get_monitor_at_point self monitor_info x y = Some idx ->
  dict_get monitor_info idx <> None.
Proof.
  unfold get_monitor_at_point.
  destruct (find _ monitor_info) as [[k v]|] eqn:F; simpl; [|discriminate].
  intros H. inversion H; subst. eapply find_dict_get. exact F.
Qed.

(** The outcome of a release of the left button during a drag. *)
Lemma mouseReleaseEvent_cases (self : RegionSelectionWindow)
  (monitor_info : dict Monitor) :
  is_selecting self = true ->
  let o := mouseReleaseEvent self monitor_info true in
  ((sel_w self < 50 \/ sel_h self < 30) /\ o = TooSmall)
  \/
  (50 <= sel_w self /\ 30 <= sel_h self /\
   (monitor_at_centre self monitor_info = None \/
    monitor_at_centre self monitor_info = Some 0) /\ o = NoMonitor)
  \/
  (50 <= sel_w self /\ 30 <= sel_h self /\
   exists idx monitor,
     idx <> 0 /\ monitor_at_centre self monitor_info = Some idx /\
     dict_get monitor_info idx = Some monitor /\
     o = Selected (sel_x self + win_x self - mon_left monitor,
                   sel_y self + win_y self - mon_top monitor,
                   sel_w self, sel_h self) idx).
Proof.
  intros Hs o. subst o. unfold mouseReleaseEvent. rewrite Hs. simpl.
  fold (sel_x self) (sel_y self) (sel_w self) (sel_h self).
  fold (monitor_at_centre self monitor_info).
  destruct (sel_w self <? 50) eqn:Ew; simpl.
  - left. apply Z.ltb_lt in Ew. tauto.
  - apply Z.ltb_ge in Ew.
    destruct (sel_h self <? 30) eqn:Eh.
    + left. apply Z.ltb_lt in Eh. tauto.
    + apply Z.ltb_ge in Eh. right.
      destruct (monitor_at_centre self monitor_info) as [idx|] eqn:Ec;
        [|left; tauto].
      pose proof (monitor_at_point_known _ _ _ _ _ Ec) as Hk.
      destruct idx as [|p|p]; [left; tauto | |];
        (destruct (dict_get monitor_info _) as [monitor|] eqn:Eg;
         [|congruence]);
        right; (split; [assumption|]); (split; [assumption|]);
        eexists; exists monitor;
        (split; [|split; [reflexivity|split; [exact Eg|reflexivity]]]);
        discriminate.
Qed.

(** C7, amended.  A release of the left button during a drag is
    rejected (no region is emitted and the registry is left as it was)
    exactly when the width is below 50, or the height is below 30, or
    no monitor lies under the centre of the selection; otherwise the
    region, with the selected width and height, is stored for that
    monitor.  The minimum is inclusive: 50 by 30 passes the size check,
    49 does not. *)
Theorem region_rejected_iff (self : RegionSelectionWindow)
  (monitor_info : dict Monitor) (selected_regions : Regions) :
  is_selecting self = true ->
  let o := mouseReleaseEvent self monitor_info true in
  let after := release_then_register self monitor_info true selected_regions in
  (rejected o = true <->
   sel_w self < 50 \/ sel_h self < 30 \/
   monitor_at_centre self monitor_info = None \/
   monitor_at_centre self monitor_info = Some 0) /\
  (rejected o = true -> after = selected_regions) /\
  (rejected o = false ->
   exists x y idx,
     monitor_at_centre self monitor_info = Some idx /\
     o = Selected (x, y, sel_w self, sel_h self) idx /\
     after = dict_set selected_regions idx
               (Some (x, y, sel_w self, sel_h self))).
Proof.
  intros Hs o after.
  pose proof (mouseReleaseEvent_cases self monitor_info Hs) as C.
  simpl in C. fold o in C. unfold after, release_then_register. fold o.
  destruct C as [[Hsize ->] | [[Hw [Hh [Hc ->]]] | [Hw [Hh C]]]]; simpl.
  - split; [|split]; [split; [tauto | reflexivity] | reflexivity
                      | discriminate].
  - split; [|split]; [split; [tauto | reflexivity] | reflexivity
                      | discriminate].
  - destruct C as [idx [monitor [Hnz [Hc [Hg ->]]]]]. simpl.
    split; [|split].
    + split; [discriminate|].
      intros [H | [H | [H | H]]]; try lia; congruence.
    + discriminate.
    + intros _. do 3 eexists. split; [exact Hc|]. split; reflexivity.
Qed.

Lemma region_rejected_iff_witness :
  let self := drag (10, 10) (60, 40) in
  is_selecting self = true /\
  exists x y idx,
    monitor_at_centre self one_monitor = Some idx /\
    mouseReleaseEvent self one_monitor true
      = Selected (x, y, sel_w self, sel_h self) idx /\
    release_then_register self one_monitor true []
      = dict_set [] idx (Some (x, y, sel_w self, sel_h self)).
Proof.
  intros self.
  assert (Hs : is_selecting self = true) by reflexivity.
  split; [exact Hs|].
  exact (proj2 (proj2 (region_rejected_iff self one_monitor [] Hs)) eq_refl).
Defined.

Example region_boundary :
  mouseReleaseEvent (drag (10, 10) (60, 40)) one_monitor true
    = Selected (10, 10, 50, 30) 1 /\
  mouseReleaseEvent (drag (0, 0) (50, 30)) one_monitor true
    = Selected (0, 0, 50, 30) 1 /\
  mouseReleaseEvent (drag (10, 10) (59, 40)) one_monitor true = TooSmall /\
  mouseReleaseEvent (drag (10, 10) (60, 39)) one_monitor true = TooSmall.
Proof. repeat split; reflexivity. Qed.

(** C7 as stated fails: a selection of 400 by 300 whose centre lies to
    the right of the only monitor is rejected, and the registry is left
    as it was. *)
Lemma region_rejected_counterexample :
  let self := drag (1900, 100) (2300, 400) in
  sel_w self = 400 /\ sel_h self = 300 /\
  mouseReleaseEvent self one_monitor true = NoMonitor /\
  release_then_register self one_monitor true [(1, Some (0, 0, 800, 600))]
    = [(1, Some (0, 0, 800, 600))].
Proof. repeat split; reflexivity. Qed.

(** ** The scanning cycle *)

Local Open Scope list_scope.

Section CycleFacts.

Variable re_search : string -> string -> bool -> re_result.
Variable capture_and_recognize : Z -> ScreenRect -> option (list Fragment).
Variable monitors : list ScreenRect.
Variable m : AdvancedSearchModel.
Variable scale_percent : Z.

Local Abbreviation scan_region :=
  (scan_region re_search capture_and_recognize monitors m scale_percent).
Local Abbreviation scan_regions :=
  (scan_regions re_search capture_and_recognize monitors m scale_percent).




Lemma scan_regions_app (before after : Regions) (boxes : list Box) :
  scan_regions boxes (before ++ after) =
  match scan_regions boxes before with
  | Some boxes' => scan_regions boxes' after
  | None => None
  end.
Proof.
  revert boxes. induction before as [|entry rest IH]; intros boxes; simpl.
  - reflexivity.
  - destruct (scan_region boxes entry); [apply IH | reflexivity].
Qed.



End CycleFacts.



(** The cycle of the witness publishes the box found on monitor 2. *)
Example cycle_two_regions :
  let m := set_keywords init_model ["apple"] in
  let g := {| matched_boxes := []; selected_regions := two_regions |} in
  matched_boxes (ocr_cycle Regex.re_search capture_failing_on_1
                   two_monitors m 100 g)
  = [ {| box_x := 110; box_y := 60; box_w := 80; box_h := 12;
         box_monitor := 2; box_keyword := 0 |} ].
Proof. vm_compute. reflexivity. Qed.

(** The region whose capture failed is scanned again by the next pass:
    once the capture works, both regions yield their box. *)
Example failed_region_tried_again :
  let m := set_keywords init_model ["apple"] in
  let g := {| matched_boxes := []; selected_regions := two_regions |} in
  let failing := {| tick_active := true; tick_capture := capture_failing_on_1;
                    tick_model := m; tick_scale := 100 |} in
  let working := {| tick_active := true; tick_capture := capture_working;
                    tick_model := m; tick_scale := 100 |} in
  matched_boxes (ocr_worker Regex.re_search two_monitors [failing; working] g)
  = [ {| box_x := 10; box_y := 10; box_w := 80; box_h := 12;
         box_monitor := 1; box_keyword := 0 |};
      {| box_x := 110; box_y := 60; box_w := 80; box_h := 12;
         box_monitor := 2; box_keyword := 0 |} ] /\
  map (fun p => (global_x p, global_y p))
    (paintEvent (get_monitor_info two_monitors)
       (matched_boxes
          (ocr_worker Regex.re_search two_monitors [failing; working] g)))
  = [(10, 10); (2030, 60)].
Proof. split; vm_compute; reflexivity. Qed.

(** ** Coordinates *)

Lemma Zrange_In (lo v : Z) (n : nat) :
  lo <= v < lo + Z.of_nat n -> In v (Zrange lo n).
Proof.
  intros H. unfold Zrange. apply in_map_iff.
  exists (Z.to_nat (v - lo)). split; [lia|].
  apply in_seq. lia.
Qed.

(** At the scale factors 0.5, 1.0 and 2.0 the binary64 quotient of an
    offset below 4096, truncated, is the floor of the exact quotient
    (by evaluation of every case). *)
Lemma unscale_binary_table :
  forallb (unscale_exact_below 4096) binary_scales = true.
Proof. vm_compute. reflexivity. Qed.

Lemma unscale_binary (scale_percent v : Z) :
  In scale_percent binary_scales -> 0 <= v < 4096 ->
  unscale v (scale_factor_of scale_percent) = Some (100 * v / scale_percent).
Proof.
  intros Hs Hv.
  pose proof unscale_binary_table as T.
  rewrite forallb_forall in T. specialize (T _ Hs).
  unfold unscale_exact_below in T. rewrite forallb_forall in T.
  specialize (T v (Zrange_In 0 v 4096 Hv)).
  unfold unscale_exact in T.
  destruct (unscale v (scale_factor_of scale_percent)) as [q|];
    [|discriminate].
  apply Z.eqb_eq in T. now subst.
Qed.

(** The box of a fragment, read back. *)
Lemma box_of_fragment_inv (m : AdvancedSearchModel) (scale_factor : float)
  (region : Region) (monitor_idx : Z) (details : MatchDetails)
  (frag : Fragment) (box : Box) :
  box_of_fragment m scale_factor region monitor_idx details frag = Some box ->
  exists qx qy qw qh,
    unscale (frag_left frag) scale_factor = Some qx /\
    unscale (frag_top frag) scale_factor = Some qy /\
    unscale (frag_width frag) scale_factor = Some qw /\
    unscale (frag_height frag) scale_factor = Some qh /\
    box = {| box_x := qx + fst (fst (fst region));
             box_y := qy + snd (fst (fst region));
             box_w := qw; box_h := qh;
             box_monitor := monitor_idx;
             box_keyword := first_keyword_index m details |}.
Proof.
  unfold box_of_fragment. destruct region as [[[rx ry] rw] rh].
  destruct (unscale (frag_left frag) scale_factor) as [qx|]; [|discriminate].
  destruct (unscale (frag_top frag) scale_factor) as [qy|]; [|discriminate].
  destruct (unscale (frag_width frag) scale_factor) as [qw|]; [|discriminate].
  destruct (unscale (frag_height frag) scale_factor) as [qh|];
    [|discriminate].
  intros H. inversion H. exists qx, qy, qw, qh. repeat split.
Qed.

(** C4, amended.  For every monitor, region and fragment for which the
    worker publishes a box, the global position the renderer computes
    for the box is, on each axis, monitor origin + region offset +
    [int(local / scale_factor)]: the binary64 quotient truncated toward
    zero to a whole pixel.  At the scale factors 0.5, 1.0 and 2.0 and
    for local offsets below 4096 the last term is the floor of the
    exact quotient. *)
Theorem global_coordinate
  (m : AdvancedSearchModel) (scale_percent : Z) (region : Region)
  (monitor_idx : Z) (details : MatchDetails) (frag : Fragment) (box : Box)
  (monitor_info : dict Monitor) (monitor : Monitor) :
  box_of_fragment m (scale_factor_of scale_percent) region monitor_idx
    details frag = Some box ->
  dict_get monitor_info monitor_idx = Some monitor ->
  exists qx qy painted,
    unscale (frag_left frag) (scale_factor_of scale_percent) = Some qx /\
    unscale (frag_top frag) (scale_factor_of scale_percent) = Some qy /\
    paint_box monitor_info box = Some painted /\
    global_x painted = mon_left monitor + fst (fst (fst region)) + qx /\
    global_y painted = mon_top monitor + snd (fst (fst region)) + qy /\
    (In scale_percent binary_scales ->
     (0 <= frag_left frag < 4096 ->
      qx = 100 * frag_left frag / scale_percent) /\
     (0 <= frag_top frag < 4096 ->
      qy = 100 * frag_top frag / scale_percent)).
Proof.
  intros Hb Hm.
  destruct (box_of_fragment_inv _ _ _ _ _ _ _ Hb)
    as [qx [qy [qw [qh [Hx [Hy [_ [_ ->]]]]]]]].
  unfold paint_box. simpl. rewrite Hm.
  eexists qx, qy, _. split; [exact Hx|]. split; [exact Hy|].
  split; [reflexivity|]. simpl.
  split; [lia|]. split; [lia|].
  intros Hs. split; intros Hv.
  - rewrite (unscale_binary _ _ Hs Hv) in Hx. now inversion Hx.
  - rewrite (unscale_binary _ _ Hs Hv) in Hy. now inversion Hy.
Qed.

(** The instance of the scale factor 1.0: region offset (100, 50) and
    local offset (10, 10) give the monitor origin + (110, 60). *)
Lemma global_coordinate_witness :
  let m := set_keywords init_model ["apple"] in
  let frag := {| frag_text := "apple"; frag_left := 10; frag_top := 10;
                 frag_width := 80; frag_height := 12 |} in
  let box := {| box_x := 110; box_y := 60; box_w := 80; box_h := 12;
                box_monitor := 2; box_keyword := 0 |} in
  let monitor_info := get_monitor_info two_monitors in
  let monitor := {| mon_index := 2; mon_left := 1920; mon_top := 0;
                    mon_width := 1280; mon_height := 1024;
                    mon_right := 3200; mon_bottom := 1024 |} in
  box_of_fragment m (scale_factor_of 100) (100, 50, 300, 200) 2
    (found_first "apple" "apple") frag = Some box /\
  dict_get monitor_info 2 = Some monitor /\
  exists qx qy painted,
    unscale 10 (scale_factor_of 100) = Some qx /\
    unscale 10 (scale_factor_of 100) = Some qy /\
    paint_box monitor_info box = Some painted /\
    global_x painted = 1920 + 100 + qx /\
    global_y painted = 0 + 50 + qy /\
    (In 100 binary_scales ->
     (0 <= 10 < 4096 -> qx = 100 * 10 / 100) /\
     (0 <= 10 < 4096 -> qy = 100 * 10 / 100)).
Proof.
  intros m frag box monitor_info monitor.
  assert (Hb : box_of_fragment m (scale_factor_of 100) (100, 50, 300, 200) 2
                 (found_first "apple" "apple") frag = Some box)
    by (vm_compute; reflexivity).
  assert (Hm : dict_get monitor_info 2 = Some monitor) by reflexivity.
  split; [exact Hb|]. split; [exact Hm|].
  exact (global_coordinate m 100 (100, 50, 300, 200) 2
           (found_first "apple" "apple") frag box monitor_info monitor
           Hb Hm).
Defined.

(** The two instances of the claim, for any monitor origin. *)
Example global_coordinate_instances (left top : Z) :
  let monitor_info :=
    [(1, {| mon_index := 1; mon_left := left; mon_top := top;
            mon_width := 1920; mon_height := 1080;
            mon_right := left + 1920; mon_bottom := top + 1080 |})] in
  let frag := {| frag_text := "apple"; frag_left := 10; frag_top := 10;
                 frag_width := 80; frag_height := 12 |} in
  let m := set_keywords init_model ["apple"] in
  let painted_at scale_percent :=
    match box_of_fragment m (scale_factor_of scale_percent)
            (100, 50, 300, 200) 1 (found_first "apple" "apple") frag with
    | Some box =>
        option_map (fun p => (global_x p, global_y p))
          (paint_box monitor_info box)
    | None => None
    end in
  painted_at 100 = Some (left + 110, top + 60) /\
  painted_at 50 = Some (left + 100 + 20, top + 50 + 20).
Proof.
  split.
  - replace (left + 110) with (110 + left) by lia.
    replace (top + 60) with (60 + top) by lia. reflexivity.
  - replace (left + 100 + 20) with (120 + left) by lia.
    replace (top + 50 + 20) with (70 + top) by lia. reflexivity.
Qed.

(** C4 as stated fails: at the scale factor 2.0 the local offset 11
    gives 5, not 5.5; the global position is origin + region + 5, which
    does not satisfy the stated equation. *)
Lemma global_coordinate_counterexample :
  let frag := {| frag_text := "apple"; frag_left := 11; frag_top := 11;
                 frag_width := 80; frag_height := 12 |} in
  let m := set_keywords init_model ["apple"] in
  exists box painted,
    box_of_fragment m (scale_factor_of 200) (100, 50, 300, 200) 1
      (found_first "apple" "apple") frag = Some box /\
    paint_box one_monitor box = Some painted /\
    global_x painted = 105 /\
    ~ exact_global 0 100 11 200 (global_x painted).
Proof.
  intros frag m. eexists. eexists.
  split; [vm_compute; reflexivity|].
  split; [vm_compute; reflexivity|].
  split; [reflexivity|].
  unfold exact_global. simpl. lia.
Qed.

(** Away from the powers of two the truncation can fall one below the
    exact quotient: 135 / 0.54 is 250, and the code computes 249. *)
Example unscale_rounding :
  unscale 135 (scale_factor_of 54) = Some 249 /\ 250 * 54 = 100 * 135.
Proof. split; [vm_compute; reflexivity | reflexivity]. Qed.

(** ** The published list *)

Module SharedStateFacts.

Import SharedState.

Lemma store_append_length (s : list (list Box)) (a : address) (b : Box) :
  length (store_append s a b) = length s.
Proof.
  revert a. induction s as [|l r IH]; intros a; simpl; [reflexivity|].
  destruct a; simpl; [reflexivity | now rewrite IH].
Qed.

Lemma store_append_same (s : list (list Box)) (a : address) (b : Box) :
  (a < length s)%nat ->
  nth a (store_append s a b) [] = nth a s [] ++ [b].
Proof.
  revert a. induction s as [|l r IH]; intros a H; simpl in *; [lia|].
  destruct a; simpl; [reflexivity|]. apply IH. lia.
Qed.

Lemma store_append_other (s : list (list Box)) (a a' : address) (b : Box) :
  a' <> a -> nth a' (store_append s a b) [] = nth a' s [].
Proof.
  revert a a'. induction s as [|l r IH]; intros a a' H; simpl.
  - reflexivity.
  - destruct a, a'; simpl; try reflexivity; try congruence.
    apply IH. congruence.
Qed.

Lemma last_In (A : Type) (l : list A) (d : A) :
  l <> [] -> In (last l d) l.
Proof.
  induction l as [|x r IH]; [congruence|]. intros _.
  destruct r as [|y r']; [now left|].
  right. apply IH. discriminate.
Qed.

Lemma complete_last (w : World) : complete w (last (published w) []).
Proof.
  unfold complete. destruct (published w) as [|l r]; [now left|].
  right. apply last_In. discriminate.
Qed.

Lemma invariant_initial : invariant initial.
Proof.
  unfold invariant, worker_ok, renderer_ok, current, deref. simpl.
  repeat split; try discriminate; try constructor.
Qed.

Lemma firstn_next (A : Type) (l : list A) (n : nat) (x : A) :
  nth_error l n = Some x -> firstn (S n) l = firstn n l ++ [x].
Proof.
  revert n. induction l as [|y r IH]; intros [|n] H; simpl in *;
    try discriminate.
  - now inversion H.
  - now rewrite (IH n H).
Qed.

Lemma firstn_past (A : Type) (l : list A) (n : nat) :
  nth_error l n = None -> firstn n l = l.
Proof.
  intros H. apply nth_error_None in H. now apply firstn_all2.
Qed.

(** Every step keeps the invariant. *)
Lemma invariant_step (w w' : World) (lab : label) :
  invariant w -> step w lab w' -> invariant w'.
Proof.
  intros [Href [Hcur [Hw [Hr Ho]]]] Hs.
  unfold invariant, worker_ok, renderer_ok, current, deref, complete in *.
  inversion Hs; subst; simpl in *;
    match goal with
    | H : worker w = _ |- _ => rewrite H in Hw
    | H : renderer w = _ |- _ => rewrite H in Hr
    end.
  - (* begin *)
    split; [rewrite length_app; simpl; lia|].
    split; [now rewrite app_nth1|].
    split.
    + rewrite length_app. simpl.
      split; [lia|]. split; [lia|].
      split; [|assumption].
      now rewrite app_nth2, Nat.sub_diag by lia.
    + split; [|assumption].
      destruct (renderer w) as [|it pos seen]; [assumption|].
      destruct Hr as [Hl [-> Hseen]].
      split; [assumption|]. split; [reflexivity|].
      now rewrite app_nth1.
  - (* append *)
    destruct Hw as [Hb [Hne [Hfull Hl]]].
    split; [now rewrite store_append_length|].
    split; [rewrite store_append_other by congruence; assumption|].
    split.
    + rewrite store_append_length.
      split; [assumption|]. split; [assumption|].
      split; [|assumption].
      rewrite store_append_same by assumption.
      now rewrite <- app_assoc.
    + split; [|assumption].
      destruct (renderer w) as [|it pos seen]; [assumption|].
      destruct Hr as [Hl' [-> Hseen]].
      split; [assumption|]. split; [reflexivity|].
      rewrite store_append_other by congruence. assumption.
  - (* abort *)
    destruct Hw as [_ [_ [_ Hl]]]. repeat split; assumption.
  - (* worker acquires *)
    destruct Hw as [Hb [Hne [Hfull Hl]]].
    split; [assumption|]. split; [assumption|].
    split.
    + split; [assumption|]. split; [|reflexivity].
      now rewrite app_nil_r in Hfull.
    + split; [|assumption].
      destruct (renderer w) as [|it pos seen]; [discriminate|].
      destruct Hr as [Hl' _]. congruence.
  - (* assignment *)
    destruct Hw as [Hb [Hfull Hl]].
    split; [assumption|].
    split; [now rewrite last_last|].
    split; [assumption|].
    split.
    + destruct (renderer w) as [|it pos seen]; [assumption|].
      destruct Hr as [Hl' _]. congruence.
    + eapply Forall_impl; [|exact Ho].
      intros l [E | I]; [now left | right; apply in_or_app; now left].
  - (* worker releases *)
    split; [assumption|]. split; [assumption|].
    split; [discriminate|].
    split; [|assumption].
    destruct (renderer w) as [|it pos seen]; [discriminate|].
    destruct Hr as [Hl' _]. congruence.
  - (* renderer acquires *)
    split; [assumption|]. split; [assumption|].
    split.
    + destruct (worker w) as [|a full todo|a full|].
      * discriminate.
      * destruct Hw as [Hb [Hne [Hfull Hl]]].
        repeat split; try assumption. discriminate.
      * destruct Hw as [_ [_ Hl]]. congruence.
      * congruence.
    + split; [|assumption]. repeat split.
  - (* read *)
    split; [assumption|]. split; [assumption|].
    destruct Hr as [Hl [Hit Hseen]].
    split; [assumption|].
    split; [|assumption].
    split; [assumption|]. split; [assumption|].
    subst seen. symmetry. now apply firstn_next.
  - (* renderer releases *)
    destruct Hr as [Hl [Hit Hseen]].
    split; [assumption|]. split; [assumption|].
    split.
    + destruct (worker w) as [|a full todo|a full|].
      * discriminate.
      * destruct Hw as [Hb [Hne [Hfull Hl']]].
        repeat split; try assumption. discriminate.
      * destruct Hw as [_ [_ Hl']]. congruence.
      * congruence.
    + split; [discriminate|].
      apply Forall_app. split; [assumption|].
      constructor; [|constructor].
      match goal with
      | H : nth_error _ _ = None |- _ =>
          unfold deref in H; rewrite Hseen, (firstn_past _ _ _ H)
      end.
      rewrite Hit, Hcur. apply (complete_last w).
Qed.

Lemma reachable_invariant (w : World) : reachable w -> invariant w.
Proof.
  induction 1 as [|w lab w' _ IH Hs].
  - apply invariant_initial.
  - eapply invariant_step; eassumption.
Qed.

End SharedStateFacts.

Lemma after_one_cycle_reachable : SharedState.reachable after_one_cycle.
Proof.
  pose (w1 := {| SharedState.store := [[]; []];
                 SharedState.matched_boxes_ref := 0%nat;
                 SharedState.lock := None;
                 SharedState.worker :=
                   SharedState.Assembling 1%nat [sample_box] [sample_box];
                 SharedState.renderer := SharedState.Waiting;
                 SharedState.published := [];
                 SharedState.observed := [] |}).
  pose (w2 := {| SharedState.store := [[]; [sample_box]];
                 SharedState.matched_boxes_ref := 0%nat;
                 SharedState.lock := None;
                 SharedState.worker :=
                   SharedState.Assembling 1%nat [sample_box] [];
                 SharedState.renderer := SharedState.Waiting;
                 SharedState.published := [];
                 SharedState.observed := [] |}).
  pose (w3 := {| SharedState.store := [[]; [sample_box]];
                 SharedState.matched_boxes_ref := 0%nat;
                 SharedState.lock := Some SharedState.Worker;
                 SharedState.worker :=
                   SharedState.Publishing 1%nat [sample_box];
                 SharedState.renderer := SharedState.Waiting;
                 SharedState.published := [];
                 SharedState.observed := [] |}).
  assert (R1 : SharedState.reachable w1).
  { apply (SharedState.reach_step (w := SharedState.initial)
             (lab := SharedState.Begin [sample_box])).
    - apply SharedState.reach_initial.
    - apply (@SharedState.step_begin SharedState.initial [sample_box]).
      reflexivity. }
  assert (R2 : SharedState.reachable w2).
  { apply (SharedState.reach_step (w := w1)
             (lab := SharedState.Append sample_box)); [exact R1|].
    apply (@SharedState.step_append w1 1%nat [sample_box] sample_box []).
    reflexivity. }
  assert (R3 : SharedState.reachable w3).
  { apply (SharedState.reach_step (w := w2)
             (lab := SharedState.WorkerAcquire)); [exact R2|].
    apply (@SharedState.step_worker_acquire w2 1%nat [sample_box]);
      reflexivity. }
  apply (SharedState.reach_step (w := w3) (lab := SharedState.Assign));
    [exact R3|].
  apply (@SharedState.step_assign w3 1%nat [sample_box]). reflexivity.
Qed.

(** C9.  In every reachable state of the worker and the renderer: the
    list that [matched_boxes] denotes is the initial empty list or the
    complete list of a cycle; no step but the assignment
    [matched_boxes = boxes] changes it (no element is ever added to or
    removed from the published list); the assignment is made with the
    lock held by the worker and installs the complete list of the
    cycle; a paint pass under way has read a prefix of that list, and
    the assignment cannot happen during it; and every finished paint
    pass has read the initial empty list or the complete list of a
    cycle. *)
Theorem published_list_wholesale (w : SharedState.World) :
  SharedState.reachable w ->
  SharedState.complete w (SharedState.current w) /\
  Forall (SharedState.complete w) (SharedState.observed w) /\
  (forall lab w',
      SharedState.step w lab w' -> lab <> SharedState.Assign ->
      SharedState.current w' = SharedState.current w) /\
  (forall w',
      SharedState.step w SharedState.Assign w' ->
      SharedState.lock w = Some SharedState.Worker /\
      exists boxes full,
        SharedState.worker w = SharedState.Publishing boxes full /\
        SharedState.deref w boxes = full /\
        SharedState.current w' = full) /\
  (forall iterator position seen,
      SharedState.renderer w = SharedState.Painting iterator position seen ->
      seen = firstn position (SharedState.current w) /\
      forall w', ~ SharedState.step w SharedState.Assign w').
Proof.
  intros Hreach.
  pose proof (SharedStateFacts.reachable_invariant w Hreach)
    as [Href [Hcur [Hw [Hr Ho]]]].
  split; [rewrite Hcur; apply SharedStateFacts.complete_last|].
  split; [exact Ho|].
  unfold SharedState.worker_ok, SharedState.renderer_ok in *.
  split; [|split].
  - intros lab w' Hs Hlab.
    unfold SharedState.current, SharedState.deref.
    inversion Hs; subst; simpl; try reflexivity; try congruence.
    + now rewrite app_nth1.
    + match goal with H : SharedState.worker w = _ |- _ =>
        rewrite H in Hw end.
      destruct Hw as [_ [Hne _]].
      apply SharedStateFacts.store_append_other. congruence.
  - intros w' Hs. inversion Hs; subst.
    match goal with H : SharedState.worker w = _ |- _ =>
      rewrite H in Hw; rename H into Hpc end.
    destruct Hw as [_ [Hfull Hl]].
    split; [exact Hl|].
    exists boxes, full. split; [exact Hpc|]. split; [exact Hfull|].
    exact Hfull.
  - intros iterator position seen Hpaint. rewrite Hpaint in Hr.
    destruct Hr as [Hl [Hit Hseen]]. split.
    + rewrite Hseen, Hit. reflexivity.
    + intros w' Hs. inversion Hs; subst.
      match goal with H : SharedState.worker w = _ |- _ =>
        rewrite H in Hw end.
      destruct Hw as [_ [_ Hl']]. congruence.
Qed.

Lemma published_list_wholesale_witness :
  SharedState.reachable after_one_cycle /\
  SharedState.complete after_one_cycle
    (SharedState.current after_one_cycle) /\
  SharedState.current after_one_cycle = [sample_box].
Proof.
  split; [exact after_one_cycle_reachable|].
  split; [|reflexivity].
  exact (proj1 (published_list_wholesale after_one_cycle
                  after_one_cycle_reachable)).
Defined.

(** ** The engine computes the meaning of the patterns *)

Module RegexFacts.

Import Regex RegexSpec PyStrFacts.

Local Open Scope string_scope.

Lemma nullable_spec (ic : bool) (r : re) :
  nullable r = true <-> lang ic r "".
Proof.
  split.
  - induction r as [| | |d|r1 IHr1 r2 IHr2|r1 IHr1 r2 IHr2|r IHr];
      simpl; intros H; try discriminate.
    + constructor.
    + apply andb_true_iff in H. destruct H as [Ha Hb].
      apply (@lang_cat ic r1 r2 "" ""); auto.
    + apply orb_true_iff in H.
      destruct H as [H | H]; [apply lang_alt_l | apply lang_alt_r]; auto.
    + constructor.
  - intros H. remember "" as w eqn:E.
    induction H; try discriminate; simpl; subst; auto.
    + apply append_nil in E. destruct E as [-> ->].
      rewrite IHlang1, IHlang2; reflexivity.
    + rewrite IHlang; reflexivity.
    + rewrite IHlang, orb_true_r; reflexivity.
Qed.

Lemma lang_cat_inv (ic : bool) (a b : re) (w : string) :
  lang ic (Cat a b) w ->
  exists s t, w = s ++ t /\ lang ic a s /\ lang ic b t.
Proof. intros H. inversion H; subst. eauto. Qed.

Lemma lang_alt_inv (ic : bool) (a b : re) (w : string) :
  lang ic (Alt a b) w -> lang ic a w \/ lang ic b w.
Proof. intros H. inversion H; subst; auto. Qed.

Lemma lang_eps_inv (ic : bool) (w : string) : lang ic Eps w -> w = "".
Proof. intros H. now inversion H. Qed.

Lemma lang_void_inv (ic : bool) (w : string) : ~ lang ic Void w.
Proof. intros H. inversion H. Qed.

(** The derivative matches what the expression matches after [c]. *)
Lemma deriv_spec (ic : bool) (r : re) :
  forall (c : ascii) (w : string),
    lang ic (deriv ic c r) w <-> lang ic r (String c w).
Proof.
  induction r as [| | |d|r1 IHr1 r2 IHr2|r1 IHr1 r2 IHr2|r IHr];
    intros c w; simpl.
  - split; intros H; inversion H.
  - split; intros H; inversion H.
  - destruct (Ascii.eqb c "010") eqn:E; split; intros H.
    + inversion H.
    + inversion H; subst. congruence.
    + apply lang_eps_inv in H. subst. now constructor.
    + inversion H; subst. constructor.
  - destruct (same_char ic c d) eqn:E; split; intros H.
    + apply lang_eps_inv in H. subst. now constructor.
    + inversion H; subst. constructor.
    + inversion H.
    + inversion H; subst. congruence.
  - assert (Hcat : lang ic (Cat (deriv ic c r1) r2) w ->
                   lang ic (Cat r1 r2) (String c w)).
    { intros H. apply lang_cat_inv in H.
      destruct H as [s [t [-> [Hs Ht]]]].
      apply IHr1 in Hs.
      apply (@lang_cat ic r1 r2 (String c s) t); assumption. }
    assert (Hinv : lang ic (Cat r1 r2) (String c w) ->
                   lang ic (Cat (deriv ic c r1) r2) w \/
                   (lang ic r1 "" /\ lang ic (deriv ic c r2) w)).
    { intros H. apply lang_cat_inv in H.
      destruct H as [[|c' s] [t [E [Hs Ht]]]]; simpl in E.
      - right. subst t. split; [assumption | now apply IHr2].
      - inversion E; subst. left.
        apply lang_cat; [now apply IHr1 | assumption]. }
    destruct (nullable r1) eqn:N; split; intros H.
    + apply lang_alt_inv in H. destruct H as [H | H]; [now apply Hcat|].
      apply IHr2 in H. apply nullable_spec with (ic := ic) in N.
      apply (@lang_cat ic r1 r2 "" (String c w)); assumption.
    + destruct (Hinv H) as [H' | [_ H']];
        [now apply lang_alt_l | now apply lang_alt_r].
    + now apply Hcat.
    + destruct (Hinv H) as [H' | [H' _]]; [assumption|].
      apply nullable_spec in H'. congruence.
  - split; intros H.
    + apply lang_alt_inv in H.
      destruct H as [H | H];
        [apply lang_alt_l, IHr1 | apply lang_alt_r, IHr2]; assumption.
    + apply lang_alt_inv in H.
      destruct H as [H | H];
        [apply lang_alt_l, IHr1 | apply lang_alt_r, IHr2]; assumption.
  - split; intros H.
    + apply lang_cat_inv in H. destruct H as [s [t [-> [Hs Ht]]]].
      apply IHr in Hs. now constructor.
    + inversion H; subst.
      apply lang_cat; [now apply IHr | assumption].
Qed.

(** [match_prefix] finds a matched prefix. *)
Lemma match_prefix_spec (ic : bool) (w : string) :
  forall r : re,
    match_prefix ic r w = true <->
    exists p after, w = p ++ after /\ lang ic r p.
Proof.
  induction w as [|c w IH]; intros r; simpl.
  - rewrite orb_false_r, (nullable_spec ic). split.
    + intros H. now exists "", "".
    + intros [p [after [E H]]]. symmetry in E.
      apply append_nil in E. destruct E as [-> _]. assumption.
  - rewrite orb_true_iff, (nullable_spec ic), IH. split.
    + intros [H | [p [after [-> H]]]].
      * now exists "", (String c w).
      * exists (String c p), after. split; [reflexivity|].
        now apply deriv_spec.
    + intros [[|c' p] [after [E H]]]; simpl in E.
      * now left.
      * inversion E; subst. right. exists p, after.
        split; [reflexivity | now apply deriv_spec].
Qed.

(** [search_from] finds a matched substring. *)
Lemma search_from_spec (ic : bool) (r : re) (w : string) :
  search_from ic r w = true <->
  exists before p after, w = before ++ p ++ after /\ lang ic r p.
Proof.
  induction w as [|c w IH]; cbn [search_from].
  - rewrite orb_false_r, match_prefix_spec. split.
    + intros [p [after [E H]]]. now exists "", p, after.
    + intros [[|c' b] [p [after [E H]]]]; simpl in E; [|discriminate].
      now exists p, after.
  - rewrite orb_true_iff, match_prefix_spec, IH. split.
    + intros [[p [after [E H]]] | [b [p [after [-> H]]]]].
      * now exists "", p, after.
      * now exists (String c b), p, after.
    + intros [[|c' b] [p [after [E H]]]]; simpl in E.
      * left. now exists p, after.
      * inversion E; subst. right. now exists b, p, after.
Qed.

(** A character that is not special is read as itself. *)
Lemma not_special (c : ascii) :
  special c = false ->
  Ascii.eqb c "(" = false /\ Ascii.eqb c ")" = false /\
  Ascii.eqb c "|" = false /\ one_of "*+?" c = false /\
  Ascii.eqb c "\" = false /\ Ascii.eqb c "." = false.
Proof.
  destruct c as [[] [] [] [] [] [] [] []]; vm_compute;
    intros H; try discriminate H; repeat split.
Qed.

Lemma parse_loop_ordinary (stack : list frame) (cur : frame)
  (pos : position) (c : ascii) (rest : string) :
  special c = false ->
  parse_loop stack cur pos (String c rest) =
  parse_loop stack (push (Chr c) cur) AfterAtom rest.
Proof.
  intros H.
  destruct (not_special c H) as [H1 [H2 [H3 [H4 [H5 H6]]]]].
  cbn [parse_loop]. now rewrite H1, H2, H3, H4, H5, H6, H.
Qed.

Lemma parse_loop_plain (pattern : string) :
  forall (cur : frame) (pos : position),
    plain pattern = true ->
    parse_loop [] cur pos pattern =
    Pattern (close {| alts := alts cur;
                      branch := (rev (map Chr (list_ascii_of_string pattern))
                                 ++ branch cur)%list |}).
Proof.
  induction pattern as [|c rest IH]; intros cur pos H.
  - destruct cur. reflexivity.
  - unfold plain in H. simpl in H. apply andb_true_iff in H.
    destruct H as [Hc Hr]. apply negb_true_iff in Hc.
    rewrite (parse_loop_ordinary _ _ _ _ _ Hc), (IH _ _ Hr).
    simpl. now rewrite <- app_assoc.
Qed.

Lemma literal_fold (pattern : string) :
  fold_right (fun a acc => Cat a acc) Eps
    (map Chr (list_ascii_of_string pattern)) = literal pattern.
Proof.
  induction pattern as [|c rest IH]; simpl; congruence.
Qed.

(** A plain pattern parses to the expression that spells it. *)
Lemma parse_plain (pattern : string) :
  plain pattern = true -> parse pattern = Pattern (literal pattern).
Proof.
  intros H. unfold parse. rewrite (parse_loop_plain _ _ _ H).
  unfold close. simpl. rewrite app_nil_r.
  rewrite <- literal_fold. f_equal.
  rewrite <- fold_left_rev_right, rev_involutive. reflexivity.
Qed.

(** Case-sensitively, the expression of a plain pattern matches the
    pattern and nothing else. *)
Lemma lang_literal (pattern w : string) :
  lang false (literal pattern) w <-> w = pattern.
Proof.
  revert w. induction pattern as [|c rest IH]; intros w; simpl.
  - split; [apply lang_eps_inv | intros ->; constructor].
  - split.
    + intros H. apply lang_cat_inv in H.
      destruct H as [s [t [-> [Hs Ht]]]].
      inversion Hs; subst. apply IH in Ht. subst.
      unfold same_char in *. simpl.
      match goal with E : Ascii.eqb _ _ = true |- _ =>
        apply Ascii.eqb_eq in E; now subst end.
    + intros ->. apply (@lang_cat false (Chr c) (literal rest)
                          (String c "") rest).
      * constructor. unfold same_char. apply Ascii.eqb_refl.
      * now apply IH.
Qed.

(** As a pattern, a keyword without special characters finds what
    [in] finds. *)
Lemma search_plain (pattern text : string) :
  plain pattern = true ->
  search pattern text false =
  Some (if PyStr.contains pattern text then ReMatch else ReNoMatch).
Proof.
  intros H. unfold search. rewrite (parse_plain _ H). f_equal.
  assert (E : search_from false (literal pattern) text
              = PyStr.contains pattern text).
  { apply eq_true_iff_eq.
    rewrite search_from_spec, contains_spec. unfold occurs_in. split.
    - intros [b [p [a [-> L]]]]. apply lang_literal in L. subst.
      now exists b, a.
    - intros [b [a ->]]. exists b, pattern, a.
      split; [reflexivity | now apply lang_literal]. }
  now rewrite E.
Qed.

End RegexFacts.

(** With case-sensitive partial matching and keywords without special
    characters, regex mode and literal mode give the same answer. *)
Lemma regex_plain_agrees (m : AdvancedSearchModel) (text : string) :
  use_regex m = true -> case_sensitive m = true ->
  partial_match m = true -> whole_word m = false ->
  Forall (fun keyword => RegexSpec.plain keyword = true) (keywords m) ->
  match_text Regex.re_search m text =
  match_text Regex.re_search (set_use_regex m false) text.
Proof.
  intros Hr Hc Hp Hw Hplain.
  unfold match_text. simpl. rewrite Hr.
  destruct (keywords m) as [|k0 ks] eqn:Ek; [reflexivity|].
  destruct text as [|c0 text0]; [reflexivity|].
  set (text := String c0 text0).
  assert (Hlit : literal_match (set_use_regex m false) text
                 = literal_match m text) by reflexivity.
  rewrite Hlit. clear Hlit.
  assert (Hloop : forall l,
             Forall (fun keyword => RegexSpec.plain keyword = true) l ->
             regex_loop Regex.re_search m text l =
             Some (match logic m with
                   | OR => existsb (fun b => b)
                             (map (keyword_matches m text) l)
                   | AND => forallb (fun b => b)
                              (map (keyword_matches m text) l)
                   end)).
  { induction 1 as [|k l Hk _ IH]; simpl.
    - destruct (logic m); reflexivity.
    - unfold Regex.re_search at 1. rewrite Hc. simpl negb.
      rewrite (RegexFacts.search_plain k text Hk).
      unfold keyword_matches at 1 3. unfold fold_case.
      rewrite Hp, Hw, Hc.
      destruct (PyStr.contains k text), (logic m); simpl;
        try reflexivity; exact IH. }
  rewrite (Hloop _ Hplain). unfold literal_match. rewrite Ek.
  reflexivity.
Qed.

(* ===================================================================== *)
(** * Further properties of the code *)
(* ===================================================================== *)

(** ** The keyword list, operation by operation *)

Lemma set_keywords_same (m : AdvancedSearchModel) :
  set_keywords m (keywords m) = m.
Proof. destruct m. reflexivity. Qed.


(** X1.  Adding the same keyword twice is adding it once. *)
Theorem add_keyword_idempotent (m : AdvancedSearchModel) (k : string) :
  add_keyword (add_keyword m k) k = add_keyword m k.
Proof.
  destruct (add_keyword_cases m k) as [[Hne [Hni E]] | [_ E]]; rewrite E.
  - destruct (add_keyword_cases (set_keywords m (keywords m ++ [PyStr.strip k])) k)
      as [[_ [Hni' _]] | [_ E']]; [|exact E'].
    exfalso. apply Hni'. simpl. apply in_or_app. right. now left.
  - exact E.
Qed.



(** X3.  On a list without duplicates, [remove_keyword] deletes the
    keyword and keeps every other one. *)
Theorem remove_keyword_deletes (m : AdvancedSearchModel) (k : string) :
  NoDup (keywords m) ->
  ~ In k (keywords (remove_keyword m k)) /\
  (forall k', k' <> k ->
     (In k' (keywords (remove_keyword m k)) <-> In k' (keywords m))).
Proof.
  intros Hd.
  destruct (remove_keyword_cases m k) as [[Hin E] | [Hni E]]; rewrite E.
  - simpl.
    destruct (PyStrFacts.remove_first_split k (keywords m) Hin)
      as [pre [post [El [Hpre Er]]]].
    rewrite Er. rewrite El in Hd.
    apply NoDup_remove in Hd. destruct Hd as [_ Hn].
    split; [exact Hn|].
    intros k' Hk'. rewrite El, !in_app_iff. simpl.
    split; [tauto|]. intros [H | [H | H]]; [tauto | congruence | tauto].
  - split; [exact Hni | tauto].
Qed.

Lemma remove_keyword_deletes_witness :
  let m := set_keywords init_model ["cat"; "dog"; "bird"] in
  NoDup (keywords m) /\
  ~ In "dog" (keywords (remove_keyword m "dog")) /\
  (forall k', k' <> "dog" ->
     (In k' (keywords (remove_keyword m "dog")) <-> In k' (keywords m))).
Proof.
  intros m.
  assert (Hd : NoDup (keywords m)).
  { simpl. repeat constructor; simpl; intuition discriminate. }
  split; [exact Hd|].
  exact (remove_keyword_deletes m "dog" Hd).
Defined.

(** ** Matching *)

Section RegexLogic.

Variable re_search : string -> string -> bool -> re_result.

(** Without a malformed pattern the loop of the regex block returns,
    and returns the combination of the outcomes. *)
Lemma regex_loop_combined (m : AdvancedSearchModel) (text : string)
  (patterns : list string) :
  (forall p, In p patterns ->
     re_search p text (negb (case_sensitive m)) <> ReError) ->
  exists result,
    regex_loop re_search m text patterns = Some result /\
    (result = true <->
     match logic m with
     | OR => exists p, In p patterns /\ finds re_search m text p
     | AND => forall p, In p patterns -> finds re_search m text p
     end).
Proof.
  unfold finds. induction patterns as [|p rest IH]; intros Hok.
  - simpl. exists (Logic_eqb (logic m) AND). split; [reflexivity|].
    destruct (logic m); simpl; split; try tauto; try discriminate.
    intros [p [[] _]].
  - destruct IH as [r [Er Hr]].
    { intros q Hq. apply Hok. now right. }
    pose proof (Hok p (or_introl eq_refl)) as Hp.
    simpl. rewrite Er.
    destruct (re_search p text (negb (case_sensitive m))) eqn:E;
      [| |congruence]; destruct (logic m) eqn:L.
    + exists true. split; [reflexivity|]. split; [|reflexivity].
      intros _. exists p. split; [now left | exact E].
    + exists r. split; [reflexivity|]. rewrite Hr. split.
      * intros H q [<- | Hq]; [exact E | now apply H].
      * intros H q Hq. apply H. now right.
    + exists r. split; [reflexivity|]. rewrite Hr. split.
      * intros [q [Hq Hm]]. exists q. split; [now right | exact Hm].
      * intros [q [[<- | Hq] Hm]]; [congruence | now exists q].
    + exists false. split; [reflexivity|]. split; [discriminate|].
      intros H. specialize (H p (or_introl eq_refl)). congruence.
Qed.

End RegexLogic.

(** X4.  In regex mode, for a non-empty keyword list and a non-empty
    text, when no pattern is malformed [match_text] returns true iff,
    under OR, some pattern finds a match in the text and, under AND,
    every pattern does. *)
Theorem regex_mode_logic
  (re_search : string -> string -> bool -> re_result)
  (m : AdvancedSearchModel) (text : string) :
  use_regex m = true -> keywords m <> [] -> text <> "" ->
  (forall p, In p (keywords m) ->
     re_search p text (negb (case_sensitive m)) <> ReError) ->
  (match_text re_search m text = true <->
   combined m (finds re_search m text)).
Proof.
  intros Hr Hk Ht Hok.
  rewrite (match_text_regex re_search m text Hr Hk Ht).
  destruct (regex_loop_combined re_search m text (keywords m) Hok)
    as [r [Er Hr']].
  rewrite Er. exact Hr'.
Qed.

Lemma regex_mode_logic_witness :
  let m := {| keywords := ["a.c"; "x+y"]; logic := OR;
              case_sensitive := false; partial_match := true;
              use_regex := true; whole_word := false |} in
  use_regex m = true /\ keywords m <> [] /\ "1 ABC 2" <> "" /\
  (forall p, In p (keywords m) ->
     Regex.re_search p "1 ABC 2" (negb (case_sensitive m)) <> ReError) /\
  (match_text Regex.re_search m "1 ABC 2" = true <->
   combined m (finds Regex.re_search m "1 ABC 2")).
Proof.
  intros m.
  assert (Hr : use_regex m = true) by reflexivity.
  assert (Hk : keywords m <> []) by discriminate.
  assert (Ht : "1 ABC 2" <> "") by discriminate.
  assert (Hok : forall p, In p (keywords m) ->
            Regex.re_search p "1 ABC 2" (negb (case_sensitive m)) <> ReError).
  { intros p [<- | [<- | []]]; discriminate. }
  split; [exact Hr|]. split; [exact Hk|]. split; [exact Ht|].
  split; [exact Hok|].
  exact (regex_mode_logic Regex.re_search m "1 ABC 2" Hr Hk Ht Hok).
Defined.

Lemma lower_idempotent (s : string) :
  PyStr.lower (PyStr.lower s) = PyStr.lower s.
Proof. apply PyStrFacts.lower_fixed, PyStrFacts.lower_not_upper. Qed.

Lemma lower_empty (s : string) : PyStr.lower s = "" <-> s = "".
Proof. destruct s; simpl; split; congruence. Qed.



(** A word of a text occurs in it. *)
Lemma is_word_of_occurs (w t : string) : is_word_of w t -> occurs_in w t.
Proof.
  intros [before [after [E _]]]. now exists before, after.
Qed.

(** X6.  In literal mode with [partial_match], setting [whole_word] can
    only lose matches: a text matched with [whole_word] is matched
    without it. *)
Theorem whole_word_restricts
  (re_search : string -> string -> bool -> re_result)
  (m : AdvancedSearchModel) (text : string) :
  use_regex m = false -> partial_match m = true ->
  match_text re_search (set_whole_word m true) text = true ->
  match_text re_search (set_whole_word m false) text = true.
Proof.
  intros Hr Hp H.
  assert (Hk : keywords m <> []).
  { intros E. unfold match_text in H. simpl in H. rewrite E in H.
    discriminate. }
  assert (Ht : text <> "").
  { intros E. subst. unfold match_text in H. simpl in H.
    destruct (keywords m); discriminate. }
  rewrite (match_text_literal re_search (set_whole_word m true) text Hr Hk Ht)
    in H.
  rewrite (match_text_literal re_search (set_whole_word m false) text Hr Hk Ht).
  apply literal_match_spec in H. apply literal_match_spec.
  unfold combined, keyword_hit in *. simpl in *. rewrite Hp in *.
  destruct (logic m).
  - destruct H as [k [Hin Hw]]. exists k. split; [exact Hin|].
    now apply is_word_of_occurs.
  - intros k Hin. apply is_word_of_occurs. now apply H.
Qed.

Lemma whole_word_restricts_witness :
  let m := set_keywords init_model ["cat"] in
  use_regex m = false /\ partial_match m = true /\
  match_text Regex.re_search (set_whole_word m true) "a cat ran" = true /\
  match_text Regex.re_search (set_whole_word m false) "a cat ran" = true.
Proof.
  intros m.
  split; [reflexivity|]. split; [reflexivity|]. split; [reflexivity|].
  exact (whole_word_restricts Regex.re_search m "a cat ran"
           eq_refl eq_refl eq_refl).
Defined.

(** X7.  In literal mode under OR, adding a keyword never loses a
    match. *)
Theorem or_add_keeps_match
  (re_search : string -> string -> bool -> re_result)
  (m : AdvancedSearchModel) (text k : string) :
  use_regex m = false -> logic m = OR ->
  match_text re_search m text = true ->
  match_text re_search (add_keyword m k) text = true.
Proof.
  intros Hr Ho H.
  destruct (add_keyword_cases m k) as [[_ [_ E]] | [_ E]]; rewrite E;
    [|exact H].
  assert (Hk : keywords m <> []).
  { intros F. unfold match_text in H. rewrite F in H. discriminate. }
  assert (Ht : text <> "").
  { intros F. subst. unfold match_text in H.
    destruct (keywords m); discriminate. }
  set (m' := set_keywords m (keywords m ++ [PyStr.strip k])).
  assert (Hk' : keywords m' <> []).
  { simpl. destruct (keywords m); discriminate. }
  rewrite (match_text_literal re_search m text Hr Hk Ht) in H.
  rewrite (match_text_literal re_search m' text Hr Hk' Ht).
  apply literal_match_spec in H. apply literal_match_spec.
  unfold combined in *. simpl. rewrite Ho in *.
  destruct H as [kw [Hin Hhit]]. exists kw.
  split; [apply in_or_app; now left | exact Hhit].
Qed.

Lemma or_add_keeps_match_witness :
  let m := set_keywords init_model ["apple"] in
  use_regex m = false /\ logic m = OR /\
  match_text Regex.re_search m "an apple" = true /\
  match_text Regex.re_search (add_keyword m "pear") "an apple" = true.
Proof.
  intros m.
  split; [reflexivity|]. split; [reflexivity|]. split; [reflexivity|].
  exact (or_add_keeps_match Regex.re_search m "an apple" "pear"
           eq_refl eq_refl eq_refl).
Defined.

(** ** Match details *)

Lemma details_fold (m : AdvancedSearchModel) (text : string)
  (l : list string) (d : MatchDetails) :
  let d' := fold_left (details_step m text) l d in
  details_keywords d' =
    details_keywords d ++ filter (keyword_matches m text) l /\
  details_text d' = details_text d /\
  matched d' = match logic m with
               | OR => matched d || existsb (keyword_matches m text) l
               | AND => matched d
               end.
Proof.
  revert d. induction l as [|k r IH]; intros d; simpl.
  - rewrite app_nil_r. repeat split.
    destruct (logic m); [now rewrite orb_false_r | reflexivity].
  - destruct (IH (details_step m text d k)) as [Hk [Ht Hm]].
    rewrite Hk, Ht, Hm. unfold details_step.
    destruct (keyword_matches m text k); simpl.
    + rewrite <- app_assoc. repeat split.
      destruct (logic m); [now rewrite orb_true_r | reflexivity].
    + repeat split.
Qed.

Lemma existsb_map_id (A : Type) (f : A -> bool) (l : list A) :
  existsb (fun b => b) (map f l) = existsb f l.
Proof. induction l as [|x r IH]; simpl; congruence. Qed.

Lemma details_keywords_matching (m : AdvancedSearchModel) (text : string) :
  text <> "" ->
  details_keywords (get_match_details m text) =
  filter (keyword_matches m text) (keywords m).
Proof.
  intros Ht. unfold get_match_details.
  destruct (keywords m) as [|k0 ks] eqn:Ek; [reflexivity|].
  destruct text as [|c t]; [congruence|].
  destruct (details_fold m (String c t) (k0 :: ks)
              {| matched := false; details_keywords := [];
                 details_text := Some (String c t) |}) as [Hk _].
  simpl in Hk.
  destruct (Logic_eqb (logic m) AND && _); simpl; exact Hk.
Qed.

(** X8.  For a non-empty text the keywords reported by
    [get_match_details] are the configured keywords that match it, in
    the order of the configuration. *)
Theorem details_keywords_filter (m : AdvancedSearchModel) (text : string) :
  text <> "" ->
  details_keywords (get_match_details m text) =
  filter (keyword_matches m text) (keywords m).
Proof. exact (details_keywords_matching m text). Qed.

Lemma details_keywords_filter_witness :
  let m := set_keywords init_model ["apple"; "pear"; "an"] in
  "an apple" <> "" /\
  details_keywords (get_match_details m "an apple") =
  filter (keyword_matches m "an apple") (keywords m).
Proof.
  intros m.
  assert (Ht : "an apple" <> "") by discriminate.
  split; [exact Ht|].
  exact (details_keywords_filter m "an apple" Ht).
Defined.

(** X9.  In literal mode under OR the flag [matched] of
    [get_match_details] is the result of [match_text]. *)
Theorem details_agree_under_or
  (re_search : string -> string -> bool -> re_result)
  (m : AdvancedSearchModel) (text : string) :
  use_regex m = false -> logic m = OR ->
  matched (get_match_details m text) = match_text re_search m text.
Proof.
  intros Hr Ho. unfold get_match_details, match_text. rewrite Hr.
  destruct (keywords m) as [|k0 ks] eqn:Ek; [reflexivity|].
  destruct text as [|c t]; [reflexivity|].
  destruct (details_fold m (String c t) (k0 :: ks)
              {| matched := false; details_keywords := [];
                 details_text := Some (String c t) |}) as [_ [_ Hm]].
  rewrite Ho in *. simpl Logic_eqb. cbn [andb].
  rewrite Hm. unfold literal_match. rewrite Ek, Ho.
  now rewrite existsb_map_id.
Qed.

Lemma details_agree_under_or_witness :
  let m := set_keywords init_model ["apple"; "pear"] in
  use_regex m = false /\ logic m = OR /\
  matched (get_match_details m "an apple") =
  match_text Regex.re_search m "an apple".
Proof.
  intros m. split; [reflexivity|]. split; [reflexivity|].
  exact (details_agree_under_or Regex.re_search m "an apple"
           eq_refl eq_refl).
Defined.

(** Under AND the flag [matched] is never set. *)
Lemma details_never_matched_under_and (m : AdvancedSearchModel)
  (text : string) :
  logic m = AND -> matched (get_match_details m text) = false.
Proof.
  intros Ha. unfold get_match_details.
  destruct (keywords m) as [|k0 ks]; [reflexivity|].
  destruct text as [|c t]; [reflexivity|].
  destruct (details_fold m (String c t) (k0 :: ks)
              {| matched := false; details_keywords := [];
                 details_text := Some (String c t) |}) as [_ [_ Hm]].
  rewrite Ha in *.
  destruct (Logic_eqb AND AND && _); simpl; [reflexivity | exact Hm].
Qed.

Lemma filter_first (A : Type) (f : A -> bool) (l : list A) :
  filter f l <> [] ->
  exists before k after,
    l = before ++ k :: after /\
    Forall (fun x => f x = false) before /\
    f k = true /\
    filter f l = k :: filter f after.
Proof.
  induction l as [|x r IH]; simpl; [congruence|].
  destruct (f x) eqn:E.
  - intros _. exists [], x, r. repeat split; [constructor | exact E].
  - intros H. destruct (IH H) as [before [k [after [-> [Hb [Hk Hf]]]]]].
    exists (x :: before), k, after. repeat split; try assumption.
    now constructor.
Qed.

Lemma index_at (k : string) (before after : list string) :
  ~ In k before ->
  PyStr.index k (before ++ k :: after) = Some (Z.of_nat (length before)).
Proof.
  induction before as [|x r IH]; simpl; intros H.
  - now rewrite String.eqb_refl.
  - destruct (String.eqb_spec k x) as [->|N]; [tauto|].
    rewrite IH by tauto. simpl. f_equal. lia.
Qed.

Lemma index_range (k : string) (l : list string) (i : Z) :
  PyStr.index k l = Some i -> 0 <= i < Z.of_nat (length l).
Proof.
  revert i. induction l as [|x r IH]; simpl; intros i; [discriminate|].
  destruct (String.eqb k x).
  - intros H. inversion H. lia.
  - destruct (PyStr.index k r) as [j|]; simpl; [|discriminate].
    intros H. inversion H. specialize (IH j eq_refl). lia.
Qed.

(** X12.  When the details of a non-empty text report a keyword, the
    keyword index of the box is the position in the configuration of
    the first keyword that matches the text. *)
Theorem first_keyword_index_first_hit (m : AdvancedSearchModel)
  (text : string) :
  text <> "" ->
  details_keywords (get_match_details m text) <> [] ->
  exists before k after,
    keywords m = before ++ k :: after /\
    Forall (fun k' => keyword_matches m text k' = false) before /\
    keyword_matches m text k = true /\
    first_keyword_index m (get_match_details m text)
      = Z.of_nat (length before).
Proof.
  intros Ht Hne.
  pose proof (details_keywords_matching m text Ht) as E.
  rewrite E in Hne.
  destruct (filter_first _ _ _ Hne) as [before [k [after [El [Hb [Hk Hf]]]]]].
  exists before, k, after. repeat split; try assumption.
  unfold first_keyword_index. rewrite E, Hf. simpl.
  assert (Hin : PyStr.mem k (keywords m) = true).
  { apply PyStrFacts.mem_In. rewrite El. apply in_or_app. right. now left. }
  assert (Hni : ~ In k before).
  { intros F. rewrite Forall_forall in Hb. specialize (Hb k F). congruence. }
  rewrite Hin, El, (index_at k before after Hni). reflexivity.
Qed.

Lemma first_keyword_index_first_hit_witness :
  let m := set_keywords init_model ["pear"; "apple"; "an"] in
  "an apple" <> "" /\
  details_keywords (get_match_details m "an apple") <> [] /\
  exists before k after,
    keywords m = before ++ k :: after /\
    Forall (fun k' => keyword_matches m "an apple" k' = false) before /\
    keyword_matches m "an apple" k = true /\
    first_keyword_index m (get_match_details m "an apple")
      = Z.of_nat (length before).
Proof.
  intros m.
  assert (Ht : "an apple" <> "") by discriminate.
  assert (Hne : details_keywords (get_match_details m "an apple") <> [])
    by discriminate.
  split; [exact Ht|]. split; [exact Hne|].
  exact (first_keyword_index_first_hit m "an apple" Ht Hne).
Defined.

(** ** The cycle, further *)

Section CycleMore.

Variable re_search : string -> string -> bool -> re_result.
Variable capture_and_recognize : Z -> ScreenRect -> option (list Fragment).
Variable monitors : list ScreenRect.
Variable m : AdvancedSearchModel.
Variable scale_percent : Z.

Local Abbreviation scan_fragments := (scan_fragments re_search m).
Local Abbreviation scan_region :=
  (scan_region re_search capture_and_recognize monitors m scale_percent).
Local Abbreviation scan_regions :=
  (scan_regions re_search capture_and_recognize monitors m scale_percent).

Lemma scan_fragments_nothing (scale_factor : float) (region : Region)
  (monitor_idx : Z) (boxes : list Box) (data : list Fragment) :
  never_both re_search m ->
  scan_fragments scale_factor region monitor_idx boxes data
  = (boxes, Completed).
Proof.
  intros H. induction data as [|frag rest IH]; simpl; [reflexivity|].
  destruct (PyStr.is_empty (PyStr.strip (frag_text frag))); [exact IH|].
  specialize (H (PyStr.strip (frag_text frag))).
  destruct (match_text re_search m _); [|exact IH].
  simpl in H. rewrite H. exact IH.
Qed.

Lemma scan_region_nothing (boxes boxes' : list Box)
  (entry : Z * option Region) :
  never_both re_search m ->
  scan_region boxes entry = Some boxes' -> boxes' = boxes.
Proof.
  intros H. destruct entry as [idx [region|]]; simpl;
    [|intros E; now inversion E].
  destruct (Z.of_nat (length monitors) <=? idx - 1);
    [intros E; now inversion E|].
  destruct (PyNum.nth monitors (idx - 1)); [|discriminate].
  destruct (capture_and_recognize idx _); [|intros E; now inversion E].
  destruct (keywords m); [intros E; now inversion E|].
  rewrite scan_fragments_nothing by exact H.
  intros E. now inversion E.
Qed.

Lemma scan_regions_nothing (regions : Regions) (boxes boxes' : list Box) :
  never_both re_search m ->
  scan_regions boxes regions = Some boxes' -> boxes' = boxes.
Proof.
  intros H. revert boxes.
  induction regions as [|entry rest IH]; intros boxes; simpl.
  - intros E. now inversion E.
  - destruct (scan_region boxes entry) as [b|] eqn:E; [|discriminate].
    apply (scan_region_nothing _ _ _ H) in E. subst b. apply IH.
Qed.

(** What is assembled so far is only added to: the scan of a region
    from a list is the scan from the empty list, appended. *)
Lemma scan_fragments_append (scale_factor : float) (region : Region)
  (monitor_idx : Z) (data : list Fragment) (boxes : list Box) :
  scan_fragments scale_factor region monitor_idx boxes data =
  (boxes ++ fst (scan_fragments scale_factor region monitor_idx [] data),
   snd (scan_fragments scale_factor region monitor_idx [] data)).
Proof.
  assert (G : forall acc boxes0,
             scan_fragments scale_factor region monitor_idx
               (boxes0 ++ acc) data =
             (boxes0 ++ fst (scan_fragments scale_factor region monitor_idx
                               acc data),
              snd (scan_fragments scale_factor region monitor_idx
                     acc data))).
  { induction data as [|frag rest IH]; intros acc boxes0; simpl.
    - reflexivity.
    - destruct (PyStr.is_empty (PyStr.strip (frag_text frag))); [apply IH|].
      destruct (match_text re_search m _); [|apply IH].
      destruct (matched (get_match_details m _)); [|apply IH].
      destruct (box_of_fragment m scale_factor region monitor_idx _ frag);
        [|reflexivity].
      rewrite <- app_assoc. apply IH. }
  specialize (G [] boxes). now rewrite app_nil_r in G.
Qed.

Lemma scan_region_append (boxes : list Box) (entry : Z * option Region) :
  scan_region boxes entry =
  option_map (app boxes) (scan_region [] entry).
Proof.
  destruct entry as [idx [region|]]; simpl;
    [|now rewrite app_nil_r].
  destruct (Z.of_nat (length monitors) <=? idx - 1);
    [simpl; now rewrite app_nil_r|].
  destruct (PyNum.nth monitors (idx - 1)); [|reflexivity].
  destruct (capture_and_recognize idx _); [|simpl; now rewrite app_nil_r].
  destruct (keywords m); [simpl; now rewrite app_nil_r|].
  simpl. now rewrite scan_fragments_append.
Qed.

Lemma scan_regions_append (regions : Regions) (boxes : list Box) :
  scan_regions boxes regions =
  option_map (app boxes) (scan_regions [] regions).
Proof.
  revert boxes. induction regions as [|entry rest IH]; intros boxes; simpl.
  - now rewrite app_nil_r.
  - rewrite (scan_region_append boxes entry).
    destruct (scan_region [] entry) as [b|]; simpl; [|reflexivity].
    rewrite (IH (boxes ++ b)), (IH b).
    destruct (scan_regions [] rest); simpl; [|reflexivity].
    now rewrite app_assoc.
Qed.

(** Where the boxes of a region come from. *)
Lemma first_keyword_index_range (details : MatchDetails) :
  keywords m <> [] ->
  0 <= first_keyword_index m details < Z.of_nat (length (keywords m)).
Proof.
  intros Hk. unfold first_keyword_index.
  assert (Hpos : 0 < Z.of_nat (length (keywords m))).
  { destruct (keywords m); [congruence | simpl; lia]. }
  induction (details_keywords details) as [|k r IH]; simpl; [lia|].
  destruct (PyStr.mem k (keywords m)); [|exact IH].
  destruct (PyStr.index k (keywords m)) as [i|] eqn:E; [|exact IH].
  simpl. now apply index_range in E.
Qed.

Lemma scan_fragments_boxes (scale_factor : float) (region : Region)
  (monitor_idx : Z) (data : list Fragment) (boxes : list Box) :
  keywords m <> [] ->
  Forall (fun b => In b boxes \/ box_from m monitor_idx b)
    (fst (scan_fragments scale_factor region monitor_idx boxes data)).
Proof.
  intros Hk.
  assert (G : forall acc,
             Forall (fun b => In b boxes \/ box_from m monitor_idx b) acc ->
             Forall (fun b => In b boxes \/ box_from m monitor_idx b)
               (fst (scan_fragments scale_factor region monitor_idx
                       acc data))).
  { induction data as [|frag rest IH]; intros acc Hacc; simpl.
    - exact Hacc.
    - destruct (PyStr.is_empty (PyStr.strip (frag_text frag)));
        [now apply IH|].
      destruct (match_text re_search m _); [|now apply IH].
      destruct (matched (get_match_details m _)); [|now apply IH].
      destruct (box_of_fragment m scale_factor region monitor_idx _ frag)
        as [box|] eqn:E; [|exact Hacc].
      apply IH. apply Forall_app. split; [exact Hacc|].
      constructor; [|constructor]. right.
      destruct (box_of_fragment_inv _ _ _ _ _ _ _ E)
        as [qx [qy [qw [qh [_ [_ [_ [_ ->]]]]]]]].
      split; [reflexivity|]. simpl.
      now apply first_keyword_index_range. }
  apply G. rewrite Forall_forall. intros b Hb. now left.
Qed.

End CycleMore.

Section CycleBoxes.

Variable re_search : string -> string -> bool -> re_result.
Variable capture_and_recognize : Z -> ScreenRect -> option (list Fragment).
Variable monitors : list ScreenRect.
Variable m : AdvancedSearchModel.
Variable scale_percent : Z.

Local Abbreviation region_scan :=
  (scan_region re_search capture_and_recognize monitors m scale_percent).
Local Abbreviation regions_scan :=
  (scan_regions re_search capture_and_recognize monitors m scale_percent).

Lemma scan_region_boxes (boxes boxes' : list Box) (idx : Z)
  (r : option Region) :
  region_scan boxes (idx, r) = Some boxes' ->
  Forall (fun b => In b boxes \/
                   (exists region, r = Some region) /\
                   idx - 1 < Z.of_nat (length monitors) /\
                   box_from m idx b) boxes'.
Proof.
  assert (Old : Forall (fun b => In b boxes \/
                   (exists region, r = Some region) /\
                   idx - 1 < Z.of_nat (length monitors) /\
                   box_from m idx b) boxes).
  { rewrite Forall_forall. intros b Hb. now left. }
  destruct r as [region|]; simpl; [|intros E; inversion E; subst; exact Old].
  destruct (Z.of_nat (length monitors) <=? idx - 1) eqn:L;
    [intros E; inversion E; subst; exact Old|].
  apply Z.leb_gt in L.
  destruct (PyNum.nth monitors (idx - 1)); [|discriminate].
  destruct (capture_and_recognize idx _) as [data|];
    [|intros E; inversion E; subst; exact Old].
  destruct (keywords m) as [|k0 ks] eqn:Ek; [intros E; inversion E; subst; exact Old|].
  intros E. inversion E. subst boxes'.
  assert (Hk : keywords m <> []) by (rewrite Ek; discriminate).
  eapply Forall_impl;
    [|exact (scan_fragments_boxes re_search m (scale_factor_of scale_percent)
               region idx data boxes Hk)].
  simpl. intros b [H | H]; [now left | right].
  split; [now exists region|]. split; [exact L | exact H].
Qed.

Lemma scan_regions_boxes (regions : Regions) (boxes boxes' : list Box) :
  regions_scan boxes regions = Some boxes' ->
  Forall (fun b => In b boxes \/
                   (exists region, In (box_monitor b, Some region) regions) /\
                   box_monitor b - 1 < Z.of_nat (length monitors) /\
                   0 <= box_keyword b < Z.of_nat (length (keywords m)))
    boxes'.
Proof.
  revert boxes.
  induction regions as [|[idx r] rest IH]; intros boxes; cbn [scan_regions].
  - intros E. inversion E. subst. rewrite Forall_forall. intros b Hb.
    now left.
  - destruct (region_scan boxes (idx, r)) as [b1|] eqn:E1; [|discriminate].
    intros E2. apply scan_region_boxes in E1. apply IH in E2.
    rewrite Forall_forall in *. intros b Hb.
    destruct (E2 b Hb) as [H | [[region Hr] [Hm Hkw]]].
    + destruct (E1 b H) as [H' | [[region ->] [Hm [Hb1 Hb2]]]];
        [now left | right].
      subst idx. split; [exists region; now left|]. split; assumption.
    + right. split; [exists region; now right|]. split; assumption.
Qed.

End CycleBoxes.

(** X10.  Under AND the flag [matched] of [get_match_details] is never
    set, whatever the text; the worker asks for that flag before it
    adds a box, so a cycle under AND assembles no box. *)
Theorem and_logic_no_boxes
  (re_search : string -> string -> bool -> re_result)
  (capture_and_recognize : Z -> ScreenRect -> option (list Fragment))
  (monitors : list ScreenRect) (m : AdvancedSearchModel) (scale_percent : Z)
  (regions : Regions) (boxes : list Box) :
  logic m = AND ->
  scan_regions re_search capture_and_recognize monitors m scale_percent
    [] regions = Some boxes ->
  (forall text, matched (get_match_details m text) = false) /\ boxes = [].
Proof.
  intros Ha Hs.
  assert (Hd : forall text, matched (get_match_details m text) = false).
  { intros text. now apply details_never_matched_under_and. }
  split; [exact Hd|].
  eapply scan_regions_nothing; [|exact Hs].
  intros text. rewrite Hd. apply andb_false_r.
Qed.

Lemma and_logic_no_boxes_witness :
  let m := {| keywords := ["apple"; "pie"]; logic := AND;
              case_sensitive := false; partial_match := true;
              use_regex := false; whole_word := false |} in
  logic m = AND /\
  scan_regions Regex.re_search capture_working two_monitors m 100
    [] two_regions = Some [] /\
  match_text Regex.re_search m "Apple pie" = true /\
  (forall text, matched (get_match_details m text) = false) /\
  @nil Box = [].
Proof.
  intros m.
  assert (Ha : logic m = AND) by reflexivity.
  assert (Hs : scan_regions Regex.re_search capture_working two_monitors m
                 100 [] two_regions = Some [])
    by (vm_compute; reflexivity).
  split; [exact Ha|]. split; [exact Hs|]. split; [reflexivity|].
  exact (and_logic_no_boxes Regex.re_search capture_working two_monitors m
           100 two_regions [] Ha Hs).
Defined.

(** X11.  With no keyword configured, a cycle still captures its
    regions and assembles no box. *)
Theorem no_keywords_no_boxes
  (re_search : string -> string -> bool -> re_result)
  (capture_and_recognize : Z -> ScreenRect -> option (list Fragment))
  (monitors : list ScreenRect) (m : AdvancedSearchModel) (scale_percent : Z)
  (regions : Regions) (boxes : list Box) :
  keywords m = [] ->
  scan_regions re_search capture_and_recognize monitors m scale_percent
    [] regions = Some boxes ->
  boxes = [].
Proof.
  intros Hk Hs.
  eapply scan_regions_nothing; [|exact Hs].
  intros text. unfold match_text. rewrite Hk. reflexivity.
Qed.

Lemma no_keywords_no_boxes_witness :
  keywords init_model = [] /\
  scan_regions Regex.re_search capture_working two_monitors init_model 100
    [] two_regions = Some [] /\
  @nil Box = [].
Proof.
  assert (Hs : scan_regions Regex.re_search capture_working two_monitors
                 init_model 100 [] two_regions = Some [])
    by (vm_compute; reflexivity).
  split; [reflexivity|]. split; [exact Hs|].
  exact (no_keywords_no_boxes Regex.re_search capture_working two_monitors
           init_model 100 two_regions [] eq_refl Hs).
Defined.

(** X13.  Every box a cycle assembles belongs to a configured region:
    its monitor index is a key of the registry with a region, the index
    is within the list of monitors, and its keyword index is a position
    of the keyword list. *)
Theorem boxes_from_configured_regions
  (re_search : string -> string -> bool -> re_result)
  (capture_and_recognize : Z -> ScreenRect -> option (list Fragment))
  (monitors : list ScreenRect) (m : AdvancedSearchModel) (scale_percent : Z)
  (regions : Regions) (boxes : list Box) :
  scan_regions re_search capture_and_recognize monitors m scale_percent
    [] regions = Some boxes ->
  forall b, In b boxes ->
    (exists region, In (box_monitor b, Some region) regions) /\
    box_monitor b - 1 < Z.of_nat (length monitors) /\
    0 <= box_keyword b < Z.of_nat (length (keywords m)).
Proof.
  intros Hs b Hb.
  pose proof (scan_regions_boxes re_search capture_and_recognize monitors m
                scale_percent regions [] boxes Hs) as F.
  rewrite Forall_forall in F.
  destruct (F b Hb) as [[] | H]. exact H.
Qed.

Lemma boxes_from_configured_regions_witness :
  let m := set_keywords init_model ["pear"; "apple"] in
  let boxes :=
    [ {| box_x := 10; box_y := 10; box_w := 80; box_h := 12;
         box_monitor := 1; box_keyword := 1 |};
      {| box_x := 110; box_y := 60; box_w := 80; box_h := 12;
         box_monitor := 2; box_keyword := 1 |} ] in
  scan_regions Regex.re_search capture_working two_monitors m 100
    [] two_regions = Some boxes /\
  forall b, In b boxes ->
    (exists region, In (box_monitor b, Some region) two_regions) /\
    box_monitor b - 1 < Z.of_nat (length two_monitors) /\
    0 <= box_keyword b < Z.of_nat (length (keywords m)).
Proof.
  intros m boxes.
  assert (Hs : scan_regions Regex.re_search capture_working two_monitors m
                 100 [] two_regions = Some boxes)
    by (vm_compute; reflexivity).
  split; [exact Hs|].
  exact (boxes_from_configured_regions Regex.re_search capture_working
           two_monitors m 100 two_regions boxes Hs).
Defined.

(** X14.  The regions are scanned independently of one another: what a
    cycle assembles over two lists of regions is what it assembles over
    the first, followed by what it assembles over the second. *)
Theorem regions_scanned_independently
  (re_search : string -> string -> bool -> re_result)
  (capture_and_recognize : Z -> ScreenRect -> option (list Fragment))
  (monitors : list ScreenRect) (m : AdvancedSearchModel) (scale_percent : Z)
  (first second : Regions) (boxes1 boxes2 : list Box) :
  scan_regions re_search capture_and_recognize monitors m scale_percent
    [] first = Some boxes1 ->
  scan_regions re_search capture_and_recognize monitors m scale_percent
    [] second = Some boxes2 ->
  scan_regions re_search capture_and_recognize monitors m scale_percent
    [] (first ++ second) = Some (boxes1 ++ boxes2).
Proof.
  intros H1 H2.
  rewrite scan_regions_app, H1, scan_regions_append, H2. reflexivity.
Qed.

Lemma regions_scanned_independently_witness :
  let m := set_keywords init_model ["apple"] in
  let box1 := {| box_x := 10; box_y := 10; box_w := 80; box_h := 12;
                 box_monitor := 1; box_keyword := 0 |} in
  let box2 := {| box_x := 110; box_y := 60; box_w := 80; box_h := 12;
                 box_monitor := 2; box_keyword := 0 |} in
  scan_regions Regex.re_search capture_working two_monitors m 100
    [] [(1, Some (0, 0, 800, 600))] = Some [box1] /\
  scan_regions Regex.re_search capture_working two_monitors m 100
    [] [(2, Some (100, 50, 300, 200))] = Some [box2] /\
  scan_regions Regex.re_search capture_working two_monitors m 100
    [] ([(1, Some (0, 0, 800, 600))] ++ [(2, Some (100, 50, 300, 200))])
  = Some ([box1] ++ [box2]).
Proof.
  intros m box1 box2.
  assert (H1 : scan_regions Regex.re_search capture_working two_monitors m
                 100 [] [(1, Some (0, 0, 800, 600))] = Some [box1])
    by (vm_compute; reflexivity).
  assert (H2 : scan_regions Regex.re_search capture_working two_monitors m
                 100 [] [(2, Some (100, 50, 300, 200))] = Some [box2])
    by (vm_compute; reflexivity).
  split; [exact H1|]. split; [exact H2|].
  exact (regions_scanned_independently Regex.re_search capture_working
           two_monitors m 100 _ _ _ _ H1 H2).
Defined.

Lemma ocr_cycle_twice
  (re_search : string -> string -> bool -> re_result)
  (capture_and_recognize : Z -> ScreenRect -> option (list Fragment))
  (monitors : list ScreenRect) (m : AdvancedSearchModel) (scale_percent : Z)
  (g : Shared) :
  ocr_cycle re_search capture_and_recognize monitors m scale_percent
    (ocr_cycle re_search capture_and_recognize monitors m scale_percent g)
  = ocr_cycle re_search capture_and_recognize monitors m scale_percent g.
Proof.
  unfold ocr_cycle.
  destruct (scan_regions re_search capture_and_recognize monitors m
              scale_percent [] (selected_regions g)) as [boxes|] eqn:E;
    simpl; now rewrite E.
Qed.

(** X15.  The same frame seen again publishes the same list: any
    number of passes of the worker over the same input leave the shared
    state as one pass leaves it (the boxes of earlier passes do not
    accumulate). *)
Theorem same_frame_same_boxes
  (re_search : string -> string -> bool -> re_result)
  (monitors : list ScreenRect) (t : Tick) (n : nat) (g : Shared) :
  ocr_worker re_search monitors (repeat t (S n)) g
  = ocr_worker re_search monitors [t] g.
Proof.
  revert g. induction n as [|n IH]; intros g; [reflexivity|].
  change (ocr_worker re_search monitors (repeat t (S (S n))) g)
    with (ocr_worker re_search monitors (repeat t (S n))
            (ocr_worker re_search monitors [t] g)).
  rewrite IH. unfold ocr_worker. simpl.
  destruct (tick_active t); [|reflexivity].
  apply ocr_cycle_twice.
Qed.

(** ** The gesture, the monitors and the overlay *)

Lemma last_cons_default (A : Type) (rest : list A) (q d : A) :
  last (q :: rest) d = last rest q.
Proof.
  revert q d. induction rest as [|p r IH]; intros q d; [reflexivity|].
  change (last (q :: p :: r) d) with (last (p :: r) d).
  now rewrite !IH.
Qed.

Lemma moves_keep_start (moves : list (Z * Z)) (self : RegionSelectionWindow) :
  is_selecting self = true ->
  fold_left mouseMoveEvent moves self =
  {| start := start self; end_ := last moves (end_ self);
     is_selecting := true;
     win_x := win_x self; win_y := win_y self |}.
Proof.
  revert self. induction moves as [|q rest IH]; intros self Hs.
  - destruct self. simpl in *. now subst.
  - cbn [fold_left]. rewrite IH; unfold mouseMoveEvent; rewrite Hs;
      [|reflexivity].
    cbn [start end_ win_x win_y]. now rewrite last_cons_default.
Qed.

(** X16.  A selection runs from the position of the press to the last
    position the mouse moved to (the position of the release is not
    read); a click without a move is always rejected as too small. *)
Theorem gesture_press_to_last_move (self : RegionSelectionWindow)
  (press : Z * Z) (moves : list (Z * Z)) (monitor_info : dict Monitor) :
  gesture self press moves =
    {| start := press; end_ := last moves press; is_selecting := true;
       win_x := win_x self; win_y := win_y self |} /\
  mouseReleaseEvent (gesture self press []) monitor_info true = TooSmall.
Proof.
  split.
  - unfold gesture. now rewrite moves_keep_start.
  - unfold gesture, mouseReleaseEvent. simpl.
    rewrite Z.sub_diag. reflexivity.
Qed.

(** X17.  The outcome of a release does not depend on the direction of
    the drag. *)
Theorem drag_direction_irrelevant (self : RegionSelectionWindow)
  (monitor_info : dict Monitor) (left_button : bool) :
  mouseReleaseEvent (reversed self) monitor_info left_button
  = mouseReleaseEvent self monitor_info left_button.
Proof.
  unfold mouseReleaseEvent, reversed. simpl.
  rewrite (Z.min_comm (fst (end_ self))), (Z.min_comm (snd (end_ self))).
  replace (Z.abs (fst (end_ self) - fst (start self)))
    with (Z.abs (fst (start self) - fst (end_ self))) by lia.
  replace (Z.abs (snd (end_ self) - snd (start self)))
    with (Z.abs (snd (start self) - snd (end_ self))) by lia.
  reflexivity.
Qed.

Lemma find_first (A : Type) (f : A -> bool) (l : list A) :
  match find f l with
  | Some x => exists before after,
                l = before ++ x :: after /\ f x = true /\
                Forall (fun y => f y = false) before
  | None => Forall (fun y => f y = false) l
  end.
Proof.
  induction l as [|y r IH]; simpl; [constructor|].
  destruct (f y) eqn:E.
  - exists [], r. repeat split; [exact E | constructor].
  - destruct (find f r) as [x|].
    + destruct IH as [before [after [-> [Hx Hb]]]].
      exists (y :: before), after. repeat split; [exact Hx|].
      now constructor.
    + now constructor.
Qed.

Lemma contains_point_test (monitor : Monitor) (gx gy : Z) :
  (mon_left monitor <=? gx) && (gx <=? mon_right monitor)
  && (mon_top monitor <=? gy) && (gy <=? mon_bottom monitor) = true
  <-> contains_point monitor gx gy.
Proof.
  unfold contains_point.
  rewrite !andb_true_iff, !Z.leb_le. tauto.
Qed.

(** X18.  [get_monitor_at_point] returns the index of the first monitor
    of [monitor_info] whose bounds, edges included, contain the point
    (taken relative to the window), and [None] exactly when no monitor
    contains it. *)
Theorem monitor_at_point_first (self : RegionSelectionWindow)
  (monitor_info : dict Monitor) (x y : Z) :
  let gx := x + win_x self in
  let gy := y + win_y self in
  match get_monitor_at_point self monitor_info x y with
  | Some idx =>
      exists before monitor after,
        monitor_info = before ++ (idx, monitor) :: after /\
        contains_point monitor gx gy /\
        Forall (fun entry => ~ contains_point (snd entry) gx gy) before
  | None =>
      Forall (fun entry => ~ contains_point (snd entry) gx gy) monitor_info
  end.
Proof.
  intros gx gy. unfold get_monitor_at_point.
  match goal with |- context [find ?f monitor_info] =>
    pose proof (find_first _ f monitor_info) as F;
    destruct (find f monitor_info) as [[idx monitor]|] end; simpl.
  - destruct F as [before [after [E [Hx Hb]]]].
    exists before, monitor, after. split; [exact E|].
    split; [now apply contains_point_test|].
    eapply Forall_impl; [|exact Hb]. simpl. intros e He Hc.
    apply contains_point_test in Hc. fold gx gy in He. congruence.
  - eapply Forall_impl; [|exact F]. simpl. intros e He Hc.
    apply contains_point_test in Hc. fold gx gy in He. congruence.
Qed.

Lemma enumerate_from_get (monitors : list ScreenRect) :
  forall start i : Z,
    dict_get (enumerate_from start monitors) i =
    if start <=? i
    then option_map (monitor_of i) (nth_error monitors (Z.to_nat (i - start)))
    else None.
Proof.
  induction monitors as [|r rest IH]; intros s i; simpl.
  - destruct (s <=? i); [|reflexivity].
    now destruct (Z.to_nat (i - s)).
  - destruct (Z.eqb_spec i s) as [->|N].
    + rewrite Z.leb_refl, Z.sub_diag. reflexivity.
    + rewrite IH. destruct (s <=? i) eqn:L.
      * apply Z.leb_le in L.
        assert (L' : (s + 1 <=? i) = true) by (apply Z.leb_le; lia).
        rewrite L'.
        replace (Z.to_nat (i - s)) with (S (Z.to_nat (i - (s + 1)))) by lia.
        reflexivity.
      * apply Z.leb_gt in L.
        assert (L' : (s + 1 <=? i) = false) by (apply Z.leb_gt; lia).
        now rewrite L'.
Qed.

Lemma nth_nonneg (A : Type) (l : list A) (i : Z) :
  0 <= i -> PyNum.nth l i = nth_error l (Z.to_nat i).
Proof.
  intros H. unfold PyNum.nth.
  destruct (i <? 0) eqn:E; [apply Z.ltb_lt in E; lia | reflexivity].
Qed.

Lemma monitor_info_get (monitors : list ScreenRect) (i : Z) :
  dict_get (get_monitor_info monitors) i =
  if 1 <=? i then option_map (monitor_of i) (PyNum.nth monitors (i - 1))
  else None.
Proof.
  unfold get_monitor_info. rewrite enumerate_from_get.
  destruct (1 <=? i) eqn:L; [|reflexivity].
  apply Z.leb_le in L. rewrite nth_nonneg by lia. reflexivity.
Qed.

(** X19.  [monitor_info] and the list of monitors of the worker agree:
    for a 1-based index the entry of [monitor_info] is built from the
    monitor that the worker reads as [monitors[monitor_idx - 1]], with
    right = left + width and bottom = top + height; and [monitor_info]
    has no entry for an index below 1 or above the number of
    monitors. *)
Theorem monitor_info_agrees (monitors : list ScreenRect) (i : Z) :
  (1 <= i ->
   dict_get (get_monitor_info monitors) i =
   option_map (monitor_of i) (PyNum.nth monitors (i - 1))) /\
  (i < 1 \/ Z.of_nat (length monitors) < i ->
   dict_get (get_monitor_info monitors) i = None).
Proof.
  rewrite monitor_info_get. split.
  - intros H. apply Z.leb_le in H. now rewrite H.
  - intros [H | H].
    + apply Z.leb_gt in H. now rewrite H.
    + destruct (1 <=? i) eqn:L; [|reflexivity].
      apply Z.leb_le in L. rewrite nth_nonneg by lia.
      assert (N : nth_error monitors (Z.to_nat (i - 1)) = None)
        by (apply nth_error_None; lia).
      now rewrite N.
Qed.

Lemma dict_get_set (V : Type) (d : dict V) (k k' : Z) (v : V) :
  dict_get (dict_set d k v) k' =
  if k' =? k then Some v else dict_get d k'.
Proof.
  induction d as [|[k0 v0] r IH]; simpl.
  - destruct (k' =? k); reflexivity.
  - destruct (Z.eqb_spec k k0) as [->|N]; simpl.
    + destruct (k' =? k0); reflexivity.
    + destruct (Z.eqb_spec k' k0) as [->|N'].
      * destruct (Z.eqb_spec k0 k); [congruence | reflexivity].
      * exact IH.
Qed.

Lemma selected_is_dragging (self : RegionSelectionWindow)
  (monitor_info : dict Monitor) (left_button : bool)
  (region : Region) (idx : Z) :
  mouseReleaseEvent self monitor_info left_button = Selected region idx ->
  left_button = true /\ is_selecting self = true.
Proof.
  unfold mouseReleaseEvent.
  destruct left_button, (is_selecting self); simpl; try discriminate.
  now split.
Qed.

(** X20.  What is selected is what is captured: when a release selects
    a region, the area the worker grabs for it and the rectangle the
    overlay draws for it are both the selection rectangle in global
    coordinates. *)
Theorem selection_is_captured (self : RegionSelectionWindow)
  (monitors : list ScreenRect) (left_button : bool)
  (region : Region) (idx : Z) (region_rects : dict QRect) :
  mouseReleaseEvent self (get_monitor_info monitors) left_button
    = Selected region idx ->
  exists monitor,
    PyNum.nth monitors (idx - 1) = Some monitor /\
    idx - 1 < Z.of_nat (length monitors) /\
    screenshot_area monitor region =
      {| sr_left := sel_x self + win_x self;
         sr_top := sel_y self + win_y self;
         sr_width := sel_w self; sr_height := sel_h self |} /\
    dict_get
      (set_region region_rects (get_monitor_info monitors) (Some region) idx)
      idx = Some (selection_rect self).
Proof.
  intros H.
  destruct (selected_is_dragging _ _ _ _ _ H) as [-> Hs].
  pose proof (mouseReleaseEvent_cases self (get_monitor_info monitors) Hs)
    as C. simpl in C. rewrite H in C.
  destruct C as [[_ F] | [[_ [_ [_ F]]] | [_ [_ C]]]]; try discriminate.
  destruct C as [idx' [mon [Hnz [_ [Hg E]]]]]. inversion E; subst.
  rewrite monitor_info_get in Hg.
  destruct (1 <=? idx') eqn:L; [|discriminate]. apply Z.leb_le in L.
  destruct (PyNum.nth monitors (idx' - 1)) as [rect|] eqn:N;
    [|discriminate].
  simpl in Hg. inversion Hg; subst. exists rect.
  split; [reflexivity|].
  split.
  { rewrite nth_nonneg in N by lia.
    assert (Hlt : (Z.to_nat (idx' - 1) < length monitors)%nat)
      by (apply nth_error_Some; congruence).
    lia. }
  split.
  - unfold screenshot_area. simpl. f_equal; lia.
  - unfold set_region. rewrite monitor_info_get.
    assert (L' : (1 <=? idx') = true) by (apply Z.leb_le; lia).
    rewrite L'. rewrite nth_nonneg in N by lia.
    rewrite nth_nonneg by lia. rewrite N. simpl.
    rewrite dict_get_set, Z.eqb_refl. unfold selection_rect.
    replace (sel_x self + win_x self - sr_left rect + sr_left rect)
      with (sel_x self + win_x self) by lia.
    replace (sel_y self + win_y self - sr_top rect + sr_top rect)
      with (sel_y self + win_y self) by lia.
    reflexivity.
Qed.

Lemma selection_is_captured_witness :
  let self := {| start := (100, 200); end_ := (400, 50);
                 is_selecting := true; win_x := 1920; win_y := 0 |} in
  mouseReleaseEvent self (get_monitor_info two_monitors) true
    = Selected (100, 50, 300, 150) 2 /\
  exists monitor,
    PyNum.nth two_monitors (2 - 1) = Some monitor /\
    2 - 1 < Z.of_nat (length two_monitors) /\
    screenshot_area monitor (100, 50, 300, 150) =
      {| sr_left := sel_x self + win_x self;
         sr_top := sel_y self + win_y self;
         sr_width := sel_w self; sr_height := sel_h self |} /\
    dict_get
      (set_region [] (get_monitor_info two_monitors)
         (Some (100, 50, 300, 150)) 2)
      2 = Some (selection_rect self).
Proof.
  intros self.
  assert (H : mouseReleaseEvent self (get_monitor_info two_monitors) true
              = Selected (100, 50, 300, 150) 2) by reflexivity.
  split; [exact H|].
  exact (selection_is_captured self two_monitors true (100, 50, 300, 150) 2
           [] H).
Defined.


Lemma select_monitor_known (monitor_info : dict Monitor)
  (st : Regions * dict QRect) (k : Z) (v mon : Monitor) :
  dict_get monitor_info k = Some mon ->
  select_monitor monitor_info st (k, v) =
  (dict_set (fst st) k (Some (0, 0, mon_width mon, mon_height mon)),
   dict_set (snd st) k
     (mon_left mon, mon_top mon, mon_width mon, mon_height mon)).
Proof.
  intros H. unfold select_monitor, set_region. simpl. now rewrite H.
Qed.

Lemma select_monitor_unknown (monitor_info : dict Monitor)
  (st : Regions * dict QRect) (k : Z) (v : Monitor) :
  dict_get monitor_info k = None ->
  select_monitor monitor_info st (k, v) = st.
Proof.
  intros H. unfold select_monitor. simpl. now rewrite H.
Qed.

Lemma select_all_fold (monitor_info : dict Monitor) (l : dict Monitor) :
  forall (st : Regions * dict QRect) (i : Z),
    let st' := fold_left (select_monitor monitor_info) l st in
    (In i (map fst l) ->
     forall mon, dict_get monitor_info i = Some mon ->
       dict_get (fst st') i
         = Some (Some (0, 0, mon_width mon, mon_height mon)) /\
       dict_get (snd st') i
         = Some (mon_left mon, mon_top mon, mon_width mon, mon_height mon))
    /\
    (~ In i (map fst l) ->
     dict_get (fst st') i = dict_get (fst st) i /\
     dict_get (snd st') i = dict_get (snd st) i).
Proof.
  induction l as [|[k v] rest IH]; intros st i.
  - simpl. split; [tauto | intros _; split; reflexivity].
  - cbn [fold_left map fst In].
    destruct (IH (select_monitor monitor_info st (k, v)) i) as [IHin IHout].
    split.
    + intros Hin mon Hmon.
      destruct (in_dec Z.eq_dec i (map fst rest)) as [Hr | Hr];
        [now apply IHin|].
      destruct Hin as [<- | Hin]; [|contradiction].
      destruct (IHout Hr) as [E1 E2]. rewrite E1, E2.
      rewrite (select_monitor_known _ _ _ _ _ Hmon). simpl.
      rewrite !dict_get_set, Z.eqb_refl. split; reflexivity.
    + intros Hout.
      assert (Hk : i <> k) by (intros ->; apply Hout; now left).
      assert (Hr : ~ In i (map fst rest)) by tauto.
      destruct (IHout Hr) as [E1 E2]. rewrite E1, E2.
      destruct (dict_get monitor_info k) as [monk|] eqn:Ek.
      * rewrite (select_monitor_known _ _ _ _ _ Ek). simpl.
        rewrite !dict_get_set.
        destruct (Z.eqb_spec i k); [congruence | split; reflexivity].
      * rewrite (select_monitor_unknown _ _ _ _ Ek). split; reflexivity.
Qed.

Lemma dict_get_key (V : Type) (d : dict V) (k : Z) (v : V) :
  dict_get d k = Some v -> In k (map fst d).
Proof.
  induction d as [|[k0 v0] r IH]; simpl; [discriminate|].
  destruct (Z.eqb_spec k k0) as [->|N]; [now left | right; now apply IH].
Qed.

(** X21.  After [select_all_monitors] every monitor has the region
    that covers it: the registry holds (0, 0, width, height) for its
    index, the area the worker grabs for it is the monitor itself, and
    the overlay holds the rectangle of the monitor; an index that is
    not a monitor keeps what the registry held. *)
Theorem select_all_monitors_full (monitors : list ScreenRect)
  (selected_regions : Regions) (region_rects : dict QRect)
  (i : Z) (monitor : ScreenRect) :
  1 <= i -> PyNum.nth monitors (i - 1) = Some monitor ->
  let st := select_all_monitors (get_monitor_info monitors)
              (selected_regions, region_rects) in
  (exists region,
     dict_get (fst st) i = Some (Some region) /\
     screenshot_area monitor region = monitor) /\
  dict_get (snd st) i
    = Some (sr_left monitor, sr_top monitor,
            sr_width monitor, sr_height monitor) /\
  (forall j, dict_get (get_monitor_info monitors) j = None ->
             dict_get (fst st) j = dict_get selected_regions j).
Proof.
  intros Hi Hn st.
  assert (Hg : dict_get (get_monitor_info monitors) i
               = Some (monitor_of i monitor)).
  { rewrite monitor_info_get.
    assert (L : (1 <=? i) = true) by (apply Z.leb_le; lia).
    now rewrite L, Hn. }
  unfold st, select_all_monitors.
  destruct (select_all_fold (get_monitor_info monitors)
              (get_monitor_info monitors)
              (selected_regions, region_rects) i) as [Hin _].
  destruct (Hin (dict_get_key _ _ _ _ Hg) _ Hg) as [E1 E2].
  split; [|split].
  - eexists. split; [exact E1|].
    unfold screenshot_area. destruct monitor. simpl. f_equal; lia.
  - exact E2.
  - intros j Hj.
    destruct (select_all_fold (get_monitor_info monitors)
                (get_monitor_info monitors)
                (selected_regions, region_rects) j) as [_ Hout].
    apply Hout. intros F. apply in_map_iff in F.
    destruct F as [[j' mon] [Ej Hm]]. simpl in Ej. subst j'.
    revert Hj. clear -Hm.
    induction (get_monitor_info monitors) as [|[k0 v0] r IH]; simpl in *;
      [tauto|].
    destruct (Z.eqb_spec j k0) as [->|N]; [discriminate|].
    destruct Hm as [H | H]; [inversion H; congruence | now apply IH].
Qed.

Lemma select_all_monitors_full_witness :
  let monitor := {| sr_left := 1920; sr_top := 0;
                    sr_width := 1280; sr_height := 1024 |} in
  let st := select_all_monitors (get_monitor_info two_monitors)
              ([(7, Some (1, 2, 300, 200))], []) in
  1 <= 2 /\ PyNum.nth two_monitors (2 - 1) = Some monitor /\
  (exists region,
     dict_get (fst st) 2 = Some (Some region) /\
     screenshot_area monitor region = monitor) /\
  dict_get (snd st) 2 = Some (1920, 0, 1280, 1024) /\
  (forall j, dict_get (get_monitor_info two_monitors) j = None ->
             dict_get (fst st) j
             = dict_get [(7, Some (1, 2, 300, 200))] j).
Proof.
  intros monitor st.
  assert (Hi : 1 <= 2) by lia.
  assert (Hn : PyNum.nth two_monitors (2 - 1) = Some monitor)
    by reflexivity.
  split; [exact Hi|]. split; [exact Hn|].
  exact (select_all_monitors_full two_monitors
           [(7, Some (1, 2, 300, 200))] [] 2 monitor Hi Hn).
Defined.






(** ** The control panel *)

Lemma set_keywords_twice (m : AdvancedSearchModel) (l l' : list string) :
  set_keywords (set_keywords m l) l' = set_keywords m l'.
Proof. reflexivity. Qed.



Example start_search_example :
  let p := {| search_model := set_keywords init_model ["old"];
              keywords_input := "  cat
 dog 

cat
";
              or_radio := false;
              case_sensitive_check := true; partial_match_check := true;
              whole_word_check := false; regex_check := false |} in
  keywords (search_model (fst (start_search p false))) = ["cat"; "dog"] /\
  logic (search_model (fst (start_search p false))) = AND /\
  snd (start_search p false) = true.
Proof. repeat split; reflexivity. Qed.

Lemma split_from_line (s cur rest : string) :
  all_chars (fun c => negb (Ascii.eqb c "010")) s = true ->
  split_from cur (s ++ rest) = split_from (cur ++ s) rest.
Proof.
  revert cur. induction s as [|c r IH]; intros cur H; simpl.
  - now rewrite PyStrFacts.append_nil_r.
  - simpl in H. apply andb_true_iff in H. destruct H as [Hc Hr].
    apply negb_true_iff in Hc. rewrite Hc, (IH _ Hr).
    now rewrite PyStrFacts.append_assoc.
Qed.

(** Lines without a newline, joined and split again, are the lines. *)
Lemma split_join (ks : list string) :
  ks <> [] ->
  Forall (fun k => all_chars (fun c => negb (Ascii.eqb c "010")) k = true) ks ->
  split_lines (join_lines ks) = ks.
Proof.
  intros Hne H. induction H as [|x r Hx Hr IH]; [congruence|].
  unfold split_lines in *. cbn [join_lines].
  destruct r as [|y r'].
  - rewrite <- (PyStrFacts.append_nil_r x) at 1.
    rewrite (split_from_line x "" "" Hx). reflexivity.
  - rewrite (split_from_line x "" _ Hx). cbn [split_from].
    rewrite Ascii.eqb_refl. simpl append. f_equal.
    apply IH. discriminate.
Qed.

Lemma add_lines_entered (ks : list string) :
  forall (m : AdvancedSearchModel),
    NoDup (keywords m ++ ks) -> Forall entered ks ->
    add_lines m ks = set_keywords m (keywords m ++ ks).
Proof.
  induction ks as [|k rest IH]; intros m Hd He.
  - simpl. now rewrite app_nil_r, set_keywords_same.
  - inversion He as [|k' r' [Hs [Hne _]] Hrest]; subst.
    unfold add_lines. cbn [fold_left]. rewrite Hs.
    apply PyStrFacts.is_empty_false in Hne. rewrite Hne.
    apply PyStrFacts.is_empty_false in Hne.
    fold (add_lines (add_keyword m k) rest).
    assert (Hni : ~ In k (keywords m)).
    { apply NoDup_remove_2 in Hd. intros F. apply Hd.
      apply in_or_app. now left. }
    destruct (add_keyword_cases m k) as [[_ [_ Ea]] | [[F | F] _]];
      rewrite ?Hs in *; [|congruence|contradiction].
    rewrite Ea, IH; simpl; rewrite <- ?app_assoc; simpl;
      [reflexivity | exact Hd | exact Hrest].
Qed.

Lemma join_nonempty (ks : list string) :
  ks <> [] -> Forall entered ks -> join_lines ks <> "".
Proof.
  intros Hne H. destruct H as [|x r [_ [Hx _]] _]; [congruence|].
  simpl. destruct r; [exact Hx|]. destruct x; [congruence | discriminate].
Qed.

(** X24.  Saving and loading give the search model back: when the
    input box is blank, the widgets show what the model holds and the
    keywords are as the panel enters them (stripped, non-empty,
    one-line, distinct), loading the saved configuration into a panel
    without keywords restores the keywords in order, the logic and the
    four flags. *)
Theorem config_keeps_search_model (p p0 : ControlPanel)
  (selected_regions regions0 : Regions) :
  PyStr.strip (keywords_input p) = "" ->
  in_sync p ->
  NoDup (keywords (search_model p)) ->
  Forall entered (keywords (search_model p)) ->
  keywords (search_model p0) = [] ->
  search_model (fst (load_config (save_config p selected_regions) p0 regions0))
  = search_model p.
Proof.
  intros Hblank [Hl [Hc [Hp [Hw Hr]]]] Hd He H0.
  unfold load_config, save_config. simpl. rewrite Hblank. simpl.
  assert (Hor : negb (String.eqb (if or_radio p then "OR" else "AND") "AND")
                = or_radio p) by (destruct (or_radio p); reflexivity).
  rewrite Hor.
  destruct (keywords (search_model p)) as [|k0 ks] eqn:Ek.
  - simpl. rewrite H0. destruct (search_model p). simpl in *. now subst.
  - assert (Hne : k0 :: ks <> []) by discriminate.
    pose proof (join_nonempty _ Hne He) as Hj.
    apply PyStrFacts.is_empty_false in Hj. rewrite Hj.
    rewrite split_join;
      [| exact Hne
       | eapply Forall_impl; [|exact He]; intros k [_ [_ H]]; exact H].
    rewrite (add_lines_entered (k0 :: ks) (clear_keywords (search_model p0)))
      by (simpl; assumption).
    simpl. destruct (search_model p). simpl in *. now subst.
Qed.

Lemma config_keeps_search_model_witness :
  let m := {| keywords := ["cat"; "hot dog"]; logic := AND;
              case_sensitive := true; partial_match := true;
              use_regex := false; whole_word := true |} in
  let p := {| search_model := m; keywords_input := "  ";
              or_radio := false;
              case_sensitive_check := true; partial_match_check := true;
              whole_word_check := true; regex_check := false |} in
  let p0 := {| search_model := init_model; keywords_input := "";
               or_radio := true;
               case_sensitive_check := false; partial_match_check := true;
               whole_word_check := false; regex_check := false |} in
  PyStr.strip (keywords_input p) = "" /\
  in_sync p /\
  NoDup (keywords (search_model p)) /\
  Forall entered (keywords (search_model p)) /\
  keywords (search_model p0) = [] /\
  search_model (fst (load_config (save_config p two_regions) p0 [])) = m.
Proof.
  intros m p p0.
  assert (Hb : PyStr.strip (keywords_input p) = "") by reflexivity.
  assert (Hs : in_sync p) by (repeat split).
  assert (Hd : NoDup (keywords (search_model p))).
  { simpl. repeat constructor; simpl; intuition discriminate. }
  assert (He : Forall entered (keywords (search_model p))).
  { simpl. repeat constructor; discriminate. }
  assert (H0 : keywords (search_model p0) = []) by reflexivity.
  split; [exact Hb|]. split; [exact Hs|]. split; [exact Hd|].
  split; [exact He|]. split; [exact H0|].
  exact (config_keeps_search_model p p0 two_regions [] Hb Hs Hd He H0).
Defined.

Lemma dict_set_fresh (V : Type) (d : dict V) (k : Z) (v : V) :
  ~ In k (map fst d) -> dict_set d k v = d ++ [(k, v)].
Proof.
  induction d as [|[k0 v0] r IH]; simpl; intros H; [reflexivity|].
  destruct (Z.eqb_spec k k0) as [->|N]; [tauto|].
  rewrite IH; tauto.
Qed.

(** The entries of a registry that hold a region, as a list. *)
Lemma save_regions_fold (regs : Regions) :
  forall acc : dict Region,
    NoDup (map fst acc ++ map fst regs) ->
    fold_left
      (fun d entry =>
         match snd entry with
         | Some region => dict_set d (fst entry) region
         | None => d
         end) regs acc
    = acc ++ flat_map (fun entry =>
                         match snd entry with
                         | Some region => [(fst entry, region)]
                         | None => []
                         end) regs.
Proof.
  induction regs as [|[k [region|]] rest IH]; intros acc Hd; simpl.
  - now rewrite app_nil_r.
  - simpl in Hd. rewrite dict_set_fresh.
    + rewrite IH.
      * now rewrite <- app_assoc.
      * rewrite map_app. simpl. rewrite <- app_assoc. exact Hd.
    + apply NoDup_remove_2 in Hd. intros F. apply Hd.
      apply in_or_app. now left.
  - apply IH. simpl in Hd. now apply NoDup_remove_1 in Hd.
Qed.

Lemma load_regions_fold (saved : dict Region) :
  forall acc : Regions,
    NoDup (map fst acc ++ map fst saved) ->
    fold_left (fun d entry => dict_set d (fst entry) (Some (snd entry)))
      saved acc
    = acc ++ map (fun entry => (fst entry, Some (snd entry))) saved.
Proof.
  induction saved as [|[k region] rest IH]; intros acc Hd; simpl.
  - now rewrite app_nil_r.
  - simpl in Hd. rewrite dict_set_fresh.
    + rewrite IH.
      * now rewrite <- app_assoc.
      * rewrite map_app. simpl. rewrite <- app_assoc. exact Hd.
    + apply NoDup_remove_2 in Hd. intros F. apply Hd.
      apply in_or_app. now left.
Qed.

Lemma saved_keys (regs : Regions) :
  forall k,
    In k (map fst (flat_map (fun entry : Z * option Region =>
                               match snd entry with
                               | Some region => [(fst entry, region)]
                               | None => []
                               end) regs)) ->
    In k (map fst regs).
Proof.
  induction regs as [|[k0 [region|]] rest IH]; intros k; simpl; [tauto| |].
  - intros [H | H]; [now left | right; now apply IH].
  - intros H. right. now apply IH.
Qed.

Lemma saved_keys_NoDup (regs : Regions) :
  NoDup (map fst regs) ->
  NoDup (map fst (flat_map (fun entry : Z * option Region =>
                              match snd entry with
                              | Some region => [(fst entry, region)]
                              | None => []
                              end) regs)).
Proof.
  induction regs as [|[k0 [region|]] rest IH]; simpl; intros H.
  - constructor.
  - inversion H; subst. constructor; [|now apply IH].
    intros F. apply saved_keys in F. contradiction.
  - inversion H; subst. now apply IH.
Qed.

(** X25.  Saving and loading give the regions back: loaded into an
    empty registry, the saved configuration restores, in their order,
    exactly the entries of the registry that held a region; an entry
    without a region is not saved. *)
Theorem config_keeps_regions (p p0 : ControlPanel)
  (selected_regions : Regions) :
  NoDup (map fst selected_regions) ->
  snd (load_config (save_config p selected_regions) p0 [])
  = filter (fun entry => match snd entry with
                         | Some _ => true
                         | None => false
                         end) selected_regions.
Proof.
  intros Hd. unfold load_config, save_config. simpl.
  rewrite (save_regions_fold selected_regions []) by exact Hd. simpl.
  rewrite load_regions_fold
    by (simpl; now apply saved_keys_NoDup).
  simpl. clear Hd.
  induction selected_regions as [|[k [region|]] rest IH]; simpl;
    [reflexivity | now rewrite IH | exact IH].
Qed.

Lemma config_keeps_regions_witness :
  let p := {| search_model := init_model; keywords_input := "";
              or_radio := true;
              case_sensitive_check := false; partial_match_check := true;
              whole_word_check := false; regex_check := false |} in
  let regs := [(2, Some (100, 50, 300, 200)); (3, None);
               (1, Some (0, 0, 800, 600))] in
  NoDup (map fst regs) /\
  snd (load_config (save_config p regs) p [])
  = [(2, Some (100, 50, 300, 200)); (1, Some (0, 0, 800, 600))].
Proof.
  intros p regs.
  assert (Hd : NoDup (map fst regs)).
  { simpl. repeat constructor; simpl; intuition lia. }
  split; [exact Hd|].
  exact (config_keeps_regions p p regs Hd).
Defined.

(** ** The lock, and what is painted *)

(** X26.  The lock excludes: in every reachable state it is held by
    the renderer exactly while a paint pass is under way, by the worker
    exactly between its [lock.acquire()] and [lock.release()], and the
    two are never inside their sections together. *)
Theorem lock_excludes (w : SharedState.World) :
  SharedState.reachable w ->
  (SharedState.lock w = Some SharedState.Renderer <->
   exists iterator position seen,
     SharedState.renderer w = SharedState.Painting iterator position seen) /\
  (SharedState.lock w = Some SharedState.Worker <->
   (exists boxes full,
      SharedState.worker w = SharedState.Publishing boxes full) \/
   SharedState.worker w = SharedState.Published) /\
  ~ ((exists iterator position seen,
        SharedState.renderer w = SharedState.Painting iterator position seen)
     /\
     ((exists boxes full,
         SharedState.worker w = SharedState.Publishing boxes full) \/
      SharedState.worker w = SharedState.Published)).
Proof.
  intros Hreach.
  pose proof (SharedStateFacts.reachable_invariant w Hreach)
    as [_ [_ [Hw [Hr _]]]].
  unfold SharedState.worker_ok, SharedState.renderer_ok in *.
  assert (R : SharedState.lock w = Some SharedState.Renderer <->
              exists iterator position seen,
                SharedState.renderer w
                = SharedState.Painting iterator position seen).
  { destruct (SharedState.renderer w) as [|it pos seen].
    - split; [contradiction | intros [i [q [s F]]]; discriminate].
    - destruct Hr as [Hl _]. split; [intros _; now exists it, pos, seen|].
      intros _. exact Hl. }
  assert (W : SharedState.lock w = Some SharedState.Worker <->
              (exists boxes full,
                 SharedState.worker w = SharedState.Publishing boxes full) \/
              SharedState.worker w = SharedState.Published).
  { destruct (SharedState.worker w) as [|a full todo|a full|].
    - split; [contradiction|].
      intros [[b [f F]] | F]; discriminate.
    - destruct Hw as [_ [_ [_ Hl]]]. split; [contradiction|].
      intros [[b [f F]] | F]; discriminate.
    - destruct Hw as [_ [_ Hl]]. split; [|intros _; exact Hl].
      intros _. left. now exists a, full.
    - split; [intros _; now right | intros _; exact Hw]. }
  split; [exact R|]. split; [exact W|].
  intros [Hp Hc]. apply R in Hp. apply W in Hc. congruence.
Qed.

Lemma lock_excludes_witness :
  SharedState.reachable after_one_cycle /\
  (SharedState.lock after_one_cycle = Some SharedState.Worker <->
   (exists boxes full,
      SharedState.worker after_one_cycle
      = SharedState.Publishing boxes full) \/
   SharedState.worker after_one_cycle = SharedState.Published).
Proof.
  split; [exact after_one_cycle_reachable|].
  exact (proj1 (proj2 (lock_excludes after_one_cycle
                         after_one_cycle_reachable))).
Defined.

Lemma paintEvent_all (monitor_info : dict Monitor) (boxes : list Box) :
  Forall (fun b => dict_get monitor_info (box_monitor b) <> None) boxes ->
  length (paintEvent monitor_info boxes) = length boxes.
Proof.
  induction 1 as [|b rest Hb _ IH]; simpl; [reflexivity|].
  unfold paint_box at 1.
  destruct (dict_get monitor_info (box_monitor b)); [|congruence].
  simpl. now rewrite IH.
Qed.

Lemma regions_key_positive (regions : Regions) (k : Z) (r : option Region) :
  Forall (fun entry : Z * option Region => 1 <= fst entry) regions ->
  In (k, r) regions -> 1 <= k.
Proof.
  intros F Hin. rewrite Forall_forall in F. exact (F _ Hin).
Qed.

(** X27.  No box the worker publishes is passed over for an unknown
    monitor: with 1-based monitor indices in the registry and
    [monitor_info] taken from the same monitors as the worker's, the
    paint pass finds the monitor of each box of a cycle, and it is the
    monitor the worker captured ([monitors[monitor_idx - 1]]); the
    rectangle it computes is the box moved by that monitor's origin and
    padded by 4 and 2 pixels. *)
Theorem published_box_located
  (re_search : string -> string -> bool -> re_result)
  (capture_and_recognize : Z -> ScreenRect -> option (list Fragment))
  (monitors : list ScreenRect) (m : AdvancedSearchModel) (scale_percent : Z)
  (regions : Regions) (boxes : list Box) :
  Forall (fun entry : Z * option Region => 1 <= fst entry) regions ->
  scan_regions re_search capture_and_recognize monitors m scale_percent
    [] regions = Some boxes ->
  (forall b, In b boxes ->
     exists monitor,
       PyNum.nth monitors (box_monitor b - 1) = Some monitor /\
       paint_box (get_monitor_info monitors) b =
       Some {| global_x := box_x b + sr_left monitor;
               global_y := box_y b + sr_top monitor;
               rect := (box_x b + sr_left monitor - 4,
                        box_y b + sr_top monitor - 2,
                        box_w b + 8, box_h b + 4) |}) /\
  length (paintEvent (get_monitor_info monitors) boxes) = length boxes.
Proof.
  intros Hpos Hs.
  assert (K : forall b, In b boxes ->
            exists monitor,
              PyNum.nth monitors (box_monitor b - 1) = Some monitor /\
              dict_get (get_monitor_info monitors) (box_monitor b)
              = Some (monitor_of (box_monitor b) monitor)).
  { intros b Hb.
    pose proof (scan_regions_boxes re_search capture_and_recognize monitors
                  m scale_percent regions [] boxes Hs) as F.
    rewrite Forall_forall in F.
    destruct (F b Hb) as [[] | [[region Hin] [Hlt _]]].
    pose proof (regions_key_positive _ _ _ Hpos Hin) as H1.
    rewrite monitor_info_get.
    assert (L : (1 <=? box_monitor b) = true) by (apply Z.leb_le; lia).
    rewrite L.
    destruct (PyNum.nth monitors (box_monitor b - 1)) as [monitor|] eqn:N.
    - exists monitor. split; reflexivity.
    - exfalso. rewrite nth_nonneg in N by lia.
      apply nth_error_None in N. lia. }
  split.
  - intros b Hb. destruct (K b Hb) as [monitor [N D]].
    exists monitor. split; [exact N|].
    unfold paint_box. rewrite D. reflexivity.
  - apply paintEvent_all. rewrite Forall_forall. intros b Hb.
    destruct (K b Hb) as [monitor [_ D]]. rewrite D. discriminate.
Qed.

Lemma published_box_located_witness :
  let m := set_keywords init_model ["apple"] in
  let boxes :=
    [ {| box_x := 10; box_y := 10; box_w := 80; box_h := 12;
         box_monitor := 1; box_keyword := 0 |};
      {| box_x := 110; box_y := 60; box_w := 80; box_h := 12;
         box_monitor := 2; box_keyword := 0 |} ] in
  Forall (fun entry : Z * option Region => 1 <= fst entry) two_regions /\
  scan_regions Regex.re_search capture_working two_monitors m 100
    [] two_regions = Some boxes /\
  length (paintEvent (get_monitor_info two_monitors) boxes) = length boxes.
Proof.
  intros m boxes.
  assert (Hpos : Forall (fun entry : Z * option Region => 1 <= fst entry)
                   two_regions).
  { repeat constructor; simpl; lia. }
  assert (Hs : scan_regions Regex.re_search capture_working two_monitors m
                 100 [] two_regions = Some boxes)
    by (vm_compute; reflexivity).
  split; [exact Hpos|]. split; [exact Hs|].
  exact (proj2 (published_box_located Regex.re_search capture_working
                  two_monitors m 100 two_regions boxes Hpos Hs)).
Defined.
